(** * BitBucketClient (Package Control): a shallow embedding

    Source: [package_control/clients/bitbucket_client.py].

    The client turns a BitBucket repository URL into download information
    ([download_info]) or descriptive information ([repo_info]).  It matches
    the URL against three regular expressions, issues JSON fetches through
    the inherited [fetch_json], and reshapes the answers into plain dicts.

    The embedding keeps Python's dynamic values as one inductive type,
    threads the fetch collaborator through a state-and-exception monad whose
    state is the log of the calls made so far, and interprets the regular
    expressions of the source with a small backtracking matcher. *)

From Stdlib Require Import String Ascii List Bool Arith NArith ZArith Lia.
Import ListNotations.
Open Scope list_scope.
Open Scope string_scope.
#[local] Set Warnings "-register-all".

(* ================================================================= *)
(** ** Python values and exceptions *)

(** Values that flow through the client: decoded JSON and the literals
    of the source.  Dict keys are strings; a dict is kept as an
    association list in insertion order (lookup takes the first binding).
    Of the JSON numbers only the integers are kept; no number takes part
    in what is proved below. *)
Inductive pyval : Type :=
| PNone
| PBool (b : bool)
| PInt (z : Z)
| PStr (s : string)
| PList (l : list pyval)
| PDict (d : list (string * pyval)).

(** Exceptions.  The first two are the ones [fetch_json] documents; the
    others are raised by the interpreter on ill-shaped responses. *)
Inductive exn : Type :=
| DownloaderException (msg : string)
| ClientException (msg : string)
| KeyError (key : string)
| TypeError
| AttributeError.

(** Python truthiness, as used by [not x] and [x or y]. *)
Definition truthy (v : pyval) : bool :=
  match v with
  | PNone => false
  | PBool b => b
  | PInt z => negb (Z.eqb z 0)
  | PStr s => negb (String.eqb s "")
  | PList l => match l with [] => false | _ => true end
  | PDict d => match d with [] => false | _ => true end
  end.

(** [x or y] *)
Definition py_or (x y : pyval) : pyval := if truthy x then x else y.

Fixpoint assoc (k : string) (d : list (string * pyval)) : option pyval :=
  match d with
  | [] => None
  | (k', v) :: d' => if String.eqb k k' then Some v else assoc k d'
  end.

(** [d.get(k)] on a dict: [None] when the key is missing. *)
Definition dict_get (d : list (string * pyval)) (k : string) : pyval :=
  match assoc k d with Some v => v | None => PNone end.

(* ================================================================= *)
(** ** Strings *)

Definition is_upper (c : ascii) : bool :=
  let n := nat_of_ascii c in Nat.leb 65 n && Nat.leb n 90.

Definition lower_char (c : ascii) : ascii :=
  if is_upper c then ascii_of_nat (nat_of_ascii c + 32) else c.

(** [s.lower()] on the characters A-Z; other characters are unchanged. *)
Fixpoint lower (s : string) : string :=
  match s with
  | EmptyString => EmptyString
  | String c s' => String (lower_char c) (lower s')
  end.

(** [x in l] for a list of strings. *)
Definition str_in (x : string) (l : list string) : bool :=
  existsb (String.eqb x) l.

Fixpoint chars (s : string) : list string :=
  match s with
  | EmptyString => []
  | String c s' => String c EmptyString :: chars s'
  end.

(* ================================================================= *)
(** ** Regular expressions

    The fragment of Python's [re] the module uses: literal characters,
    [.], character classes, [x?] and greedy [x+] over a single-character
    item, capture groups, [^] and [$].  The matcher backtracks like
    Python's: every choice is tried greedy-first and the first overall
    success wins. *)

Inductive cset : Type :=
| CChar (c : ascii)            (* a literal character *)
| CDot                         (* .  : any character but newline *)
| COneOf (cs : list ascii)     (* [abc]  *)
| CNoneOf (cs : list ascii).   (* [^abc] *)

Inductive regex : Type :=
| RChr (c : cset)
| ROpt (c : cset)              (* c?  *)
| RPlus (c : cset)             (* c+  *)
| RSeq (r1 r2 : regex)
| RGroup (r : regex)           (* ( r ) *)
| RBegin                       (* ^ *)
| REnd.                        (* $ *)

Definition newline : ascii := ascii_of_nat 10.

Definition mem_ascii (a : ascii) (cs : list ascii) : bool :=
  existsb (Ascii.eqb a) cs.

Definition cset_mem (c : cset) (a : ascii) : bool :=
  match c with
  | CChar x => Ascii.eqb a x
  | CDot => negb (Ascii.eqb a newline)
  | COneOf cs => mem_ascii a cs
  | CNoneOf cs => negb (mem_ascii a cs)
  end.

(** Prefix of [s] of length [n]. *)
Definition take (n : nat) (s : string) : string := substring 0 n s.

(** The answer type of a match: end offset and captured groups. *)
Definition mres : Type := (nat * list string)%type.

(** A continuation receives the current offset, the rest of the input
    and the groups closed so far. *)
Definition kont : Type := nat -> string -> list string -> option mres.

(** Greedy repetition of a one-character item: consume while the item
    matches, then give back one character at a time. *)
Fixpoint star (c : cset) (i : nat) (s : string) (g : list string) (k : kont)
  : option mres :=
  match s with
  | String a s' =>
      if cset_mem c a then
        match star c (S i) s' g k with
        | Some r => Some r
        | None => k i s g
        end
      else k i s g
  | EmptyString => k i s g
  end.

Fixpoint rmatch (r : regex) (i : nat) (s : string) (g : list string) (k : kont)
  : option mres :=
  match r with
  | RChr c =>
      match s with
      | String a s' => if cset_mem c a then k (S i) s' g else None
      | EmptyString => None
      end
  | ROpt c =>
      match s with
      | String a s' =>
          if cset_mem c a then
            match k (S i) s' g with
            | Some r => Some r
            | None => k i s g
            end
          else k i s g
      | EmptyString => k i s g
      end
  | RPlus c =>
      match s with
      | String a s' => if cset_mem c a then star c (S i) s' g k else None
      | EmptyString => None
      end
  | RSeq r1 r2 => rmatch r1 i s g (fun i' s' g' => rmatch r2 i' s' g' k)
  | RGroup r1 =>
      rmatch r1 i s g (fun i' s' g' => k i' s' (g' ++ [take (i' - i) s])%list)
  | RBegin => if Nat.eqb i 0 then k i s g else None
  | REnd =>
      (* end of string, or just before a final newline *)
      match s with
      | EmptyString => k i s g
      | String a EmptyString => if Ascii.eqb a newline then k i s g else None
      | _ => None
      end
  end.

(** [re.match(r, s)]: a match anchored at offset 0; the result is the list
    of groups 1, 2, ... (the patterns of this module do not nest groups). *)
Definition re_match (r : regex) (s : string) : option (list string) :=
  match rmatch r 0 s [] (fun i _ g => Some (i, g)) with
  | Some (_, g) => Some g
  | None => None
  end.

(** Length of the match of [r] that starts at offset [i], the rest of the
    subject being [s]. *)
Definition match_len (r : regex) (i : nat) (s : string) : option nat :=
  match rmatch r i s [] (fun i' _ g => Some (i', g)) with
  | Some (i', _) => Some (i' - i)
  | None => None
  end.

(** [re.sub(r, repl, s)] for a replacement without back-references: scan
    left to right, replace each match and resume after it.  [skip] counts
    the characters of the current match still to be dropped. *)
Fixpoint sub_loop (r : regex) (repl : string) (skip i : nat) (s : string)
  : string :=
  match s with
  | EmptyString =>
      match skip, match_len r i s with
      | O, Some _ => repl
      | _, _ => EmptyString
      end
  | String a s' =>
      match skip with
      | S k => sub_loop r repl k (S i) s'
      | O =>
          match match_len r i s with
          | Some (S l) => repl ++ sub_loop r repl l (S i) s'
          | Some O => repl ++ String a (sub_loop r repl 0 (S i) s')
          | None => String a (sub_loop r repl 0 (S i) s')
          end
      end
  end.

Definition re_sub (r : regex) (repl s : string) : string :=
  sub_loop r repl 0 0 s.

(** A literal string as a regex; [lit_then s r] is [s] followed by [r]. *)
Fixpoint lit_then (s : string) (r : regex) : regex :=
  match s with
  | EmptyString => r
  | String c s' => RSeq (RChr (CChar c)) (lit_then s' r)
  end.

Definition not_slash : cset := CNoneOf ["/"%char].
Definition not_hash_slash : cset := CNoneOf ["#"%char; "/"%char].

(** [https?://bitbucket.org/] -- the dot of the host is a regex dot. *)
Definition host_prefix (r : regex) : regex :=
  lit_then "http"
    (RSeq (ROpt (CChar "s"%char))
       (lit_then "://bitbucket"
          (RSeq (RChr CDot) (lit_then "org/" r)))).

(** ['https?://bitbucket.org/([^/]+/[^#/]+)/?#tags$'] *)
Definition tags_re : regex :=
  host_prefix
    (RSeq (RGroup (RSeq (RPlus not_slash)
                     (RSeq (RChr (CChar "/"%char)) (RPlus not_hash_slash))))
       (RSeq (ROpt (CChar "/"%char)) (lit_then "#tags" REnd))).

(** ['https?://bitbucket.org/([^/]+/[^/]+)/?$'] *)
Definition repo_re : regex :=
  host_prefix
    (RSeq (RGroup (RSeq (RPlus not_slash)
                     (RSeq (RChr (CChar "/"%char)) (RPlus not_slash))))
       (RSeq (ROpt (CChar "/"%char)) REnd)).

(** ['https?://bitbucket.org/([^/]+/[^/]+)/src/([^/]+)/?$'] *)
Definition branch_re : regex :=
  host_prefix
    (RSeq (RGroup (RSeq (RPlus not_slash)
                     (RSeq (RChr (CChar "/"%char)) (RPlus not_slash))))
       (lit_then "/src/"
          (RSeq (RGroup (RPlus not_slash))
             (RSeq (ROpt (CChar "/"%char)) REnd)))).

(** ['^v'] *)
Definition leading_v_re : regex := RSeq RBegin (RChr (CChar "v"%char)).

(** ['[\-: ]'] *)
Definition date_sep_re : regex :=
  RChr (COneOf ["-"%char; ":"%char; " "%char]).

(** Group [n] (from 1) of a successful match. *)
Definition group (n : nat) (g : list string) : string := nth (n - 1) g "".

(* ================================================================= *)
(** ** The fetch collaborator and the monad of the client

    [fetch_json] is inherited from [JSONApiClient]: it returns decoded
    JSON or raises.  A computation takes the log of the calls made so far
    (oldest first) and returns a value or an exception together with the
    extended log.  Nothing in the module catches an exception, so the
    monad has no handler. *)

Record call : Type := mkCall {
  call_url : string;
  call_cached : bool;
  call_result : exn + pyval
}.

Definition log : Type := list call.

Definition M (A : Type) : Type := log -> (exn + A) * log.

Definition ret {A} (a : A) : M A := fun w => (inr a, w).

Definition raise {A} (e : exn) : M A := fun w => (inl e, w).

Definition bind {A B} (m : M A) (f : A -> M B) : M B :=
  fun w =>
    match m w with
    | (inr a, w') => f a w'
    | (inl e, w') => (inl e, w')
    end.

Notation "x <- m ;; k" := (bind m (fun x => k))
  (at level 61, m at next level, right associativity).
Notation "' p <- m ;; k" := (bind m (fun x => match x with p => k end))
  (at level 61, p pattern, m at next level, right associativity).

(** A [return] inside a block, or falling through to what follows it. *)
Inductive flow (A : Type) : Type :=
| Return (v : pyval)
| Next (a : A).
Arguments Return {A} v.
Arguments Next {A} a.

(** A predefined list of readme filenames to look for *)
Definition _readme_filenames : list string :=
  [ "readme";
    "readme.txt";
    "readme.md";
    "readme.mkd";
    "readme.mdown";
    "readme.markdown";
    "readme.textile";
    "readme.creole";
    "readme.rst" ].

(** [v[k]] for a string key. *)
Definition getitem (v : pyval) (k : string) : M pyval :=
  match v with
  | PDict d =>
      match assoc k d with
      | Some x => ret x
      | None => raise (KeyError k)
      end
  | _ => raise TypeError
  end.

(** [v.keys()] *)
Definition py_keys (v : pyval) : M (list string) :=
  match v with
  | PDict d => ret (map fst d)
  | _ => raise AttributeError
  end.

(** [v.lower()] *)
Definition py_lower (v : pyval) : M string :=
  match v with
  | PStr s => ret (lower s)
  | _ => raise AttributeError
  end.

(** [v[0:n]]: strings and lists can be sliced. *)
Definition slice (v : pyval) (n : nat) : option pyval :=
  match v with
  | PStr s => Some (PStr (take n s))
  | PList l => Some (PList (firstn n l))
  | _ => None
  end.

Definition py_slice (v : pyval) (n : nat) : M pyval :=
  match slice v n with
  | Some x => ret x
  | None => raise TypeError
  end.

(** The items a [for] loop over [v] visits. *)
Definition py_iter (v : pyval) : M (list pyval) :=
  match v with
  | PList l => ret l
  | PDict d => ret (map (fun kv => PStr (fst kv)) d)
  | PStr s => ret (map PStr (chars s))
  | _ => raise TypeError
  end.

(** [re.sub(r, repl, v)] *)
Definition py_re_sub (r : regex) (repl : string) (v : pyval) : M pyval :=
  match v with
  | PStr s => ret (PStr (re_sub r repl s))
  | _ => raise TypeError
  end.

(* ================================================================= *)
(** ** Vocabulary of the statements *)

Fixpoint all_chars (p : ascii -> bool) (s : string) : bool :=
  match s with
  | EmptyString => true
  | String a s' => p a && all_chars p s'
  end.

(** The rest of the input where a greedy repetition of [c] must stop. *)
Definition stops (c : cset) (s : string) : bool :=
  match s with
  | EmptyString => true
  | String a _ => negb (cset_mem c a)
  end.

Fixpoint min_len (r : regex) : nat :=
  match r with
  | RChr _ | RPlus _ => 1
  | RSeq r1 r2 => min_len r1 + min_len r2
  | RGroup r1 => min_len r1
  | ROpt _ | RBegin | REnd => 0
  end.

Fixpoint ngroups (r : regex) : nat :=
  match r with
  | RSeq r1 r2 => ngroups r1 + ngroups r2
  | RGroup r1 => S (ngroups r1)
  | _ => 0
  end.

(** Every group of [r] has to consume at least one character. *)
Fixpoint groups_consume (r : regex) : bool :=
  match r with
  | RSeq r1 r2 => groups_consume r1 && groups_consume r2
  | RGroup r1 => Nat.leb 1 (min_len r1) && groups_consume r1
  | _ => true
  end.

Definition nonempty (s : string) : Prop := s <> "".

(** One leading [v] removed. *)
Definition strip_v (s : string) : string :=
  match s with
  | String a s' => if Ascii.eqb a "v" then s' else s
  | EmptyString => s
  end.

Definition is_date_sep (a : ascii) : bool :=
  mem_ascii a ["-"%char; ":"%char; " "%char].

(** Every [-], [:] and space replaced by a dot. *)
Fixpoint dotted (s : string) : string :=
  match s with
  | EmptyString => EmptyString
  | String a s' => String (if is_date_sep a then "."%char else a) (dotted s')
  end.

(** The owner/repo part of a URL of the repo-root or the branch shape. *)
Definition user_repo_of (url : string) : option string :=
  match re_match repo_re url with
  | Some g => Some (group 1 g)
  | None =>
      match re_match branch_re url with
      | Some g => Some (group 1 g)
      | None => None
      end
  end.

(** The [path] of a well-formed entry of a directory listing. *)
Definition path_of (entry : pyval) : option string :=
  match entry with
  | PDict d =>
      match assoc "path" d with
      | Some (PStr p) => Some p
      | _ => None
      end
  | _ => None
  end.

Definition is_readme (path : string) : bool :=
  str_in (lower path) _readme_filenames.

(** An entry with a path that is not a readme name. *)
Definition not_readme (entry : pyval) : bool :=
  match path_of entry with
  | Some p => negb (is_readme p)
  | None => false
  end.

Definition succeeded (c : call) : Prop := exists v, call_result c = inr v.

(** [calls] were made one after the other from the log [w], and each
    records what the collaborator answered at that point. *)
Fixpoint answered (respond : log -> string -> bool -> exn + pyval)
  (w : log) (calls : list call) : Prop :=
  match calls with
  | [] => True
  | c :: cs =>
      call_result c = respond w (call_url c) (call_cached c)
      /\ answered respond (w ++ [c])%list cs
  end.

(** The outcome of a run started on the log [w]: the calls it made all
    succeeded, or only the last one failed and its exception is the
    outcome of the run. *)
Inductive tidy {A : Type} (respond : log -> string -> bool -> exn + pyval)
  (w : log) : (exn + A) * log -> Prop :=
| tidy_done (r : exn + A) (calls : list call) :
    answered respond w calls ->
    Forall succeeded calls -> tidy respond w (r, (w ++ calls)%list)
| tidy_failed (e : exn) (calls : list call) (c : call) :
    answered respond w (calls ++ [c])%list ->
    Forall succeeded calls -> call_result c = inl e ->
    tidy respond w (inl e, (w ++ calls ++ [c])%list).

Definition propagates {A : Type} respond (m : M A) : Prop :=
  forall w, tidy respond w (m w).

(** A failed fetch is the last call of the run, and the run ends with the
    exception that fetch raised. *)
Definition fails_only_last {A : Type} respond (w : log)
  (out : (exn + A) * log) : Prop :=
  exists calls,
    snd out = (w ++ calls)%list /\
    answered respond w calls /\
    forall pre c post e,
      calls = (pre ++ c :: post)%list -> call_result c = inl e ->
      post = [] /\ fst out = inl e.

(** A computation that never returns [None]. *)
Definition never_none (m : M pyval) : Prop :=
  forall w, fst (m w) <> inr PNone.

(** The run from the log [w] to the log [w'] made the call [c]. *)
Definition fetched (w w' : log) (c : call) : Prop :=
  exists before after, w' = (w ++ before ++ c :: after)%list.

(* ================================================================= *)
(** ** Semantic versions *)

(** Modelled from the spec: [version_filter] and [version_sort] come from
    [package_control/versions.py], which is not among the sources.  The
    spec describes them as standard semantic-version filtering and
    ordering: strings that do not parse as versions are dropped by the
    filter, prereleases are dropped unless allowed, and the sort orders by
    semantic version.  The model below reads a tag, after one leading [v],
    as MAJOR.MINOR.PATCH with an optional [-prerelease] and [+build], and
    orders by semantic-version precedence. *)
Record semver : Type := mkSemver {
  major : N;
  minor : N;
  patch : N;
  prerelease : list string   (* empty for a release *)
}.

Definition is_digit (a : ascii) : bool :=
  let n := nat_of_ascii a in Nat.leb 48 n && Nat.leb n 57.

Definition is_letter (a : ascii) : bool :=
  let n := nat_of_ascii a in
  (Nat.leb 65 n && Nat.leb n 90) || (Nat.leb 97 n && Nat.leb n 122).

Definition is_ident_char (a : ascii) : bool :=
  is_digit a || is_letter a || Ascii.eqb a "-".

(** [s] cut at the first [sep]: what precedes it and, if there is one,
    what follows it. *)
Fixpoint cut_at (sep : ascii) (s : string) : string * option string :=
  match s with
  | EmptyString => (EmptyString, None)
  | String a s' =>
      if Ascii.eqb a sep then (EmptyString, Some s')
      else let (x, r) := cut_at sep s' in (String a x, r)
  end.

Fixpoint split_on (sep : ascii) (s : string) : list string :=
  match s with
  | EmptyString => [EmptyString]
  | String a s' =>
      if Ascii.eqb a sep then EmptyString :: split_on sep s'
      else match split_on sep s' with
           | x :: xs => String a x :: xs
           | [] => [String a EmptyString]
           end
  end.

Fixpoint digits_value (acc : N) (s : string) : N :=
  match s with
  | EmptyString => acc
  | String a s' =>
      digits_value (acc * 10 + N.of_nat (nat_of_ascii a - 48)) s'
  end.

Definition is_numeric (s : string) : bool :=
  negb (String.eqb s "") && all_chars is_digit s.

Definition no_leading_zero (s : string) : bool :=
  match s with
  | String a (String _ _) => negb (Ascii.eqb a "0")
  | _ => true
  end.

Definition parse_num (s : string) : option N :=
  if is_numeric s && no_leading_zero s then Some (digits_value 0 s) else None.

Definition valid_pre_ident (s : string) : bool :=
  negb (String.eqb s "") && all_chars is_ident_char s
  && (if is_numeric s then no_leading_zero s else true).

Definition valid_build_ident (s : string) : bool :=
  negb (String.eqb s "") && all_chars is_ident_char s.

Definition parse_semver (s : string) : option semver :=
  let (main, build) := cut_at "+" s in
  let (core, pre) := cut_at "-" main in
  let build_ok :=
    match build with
    | None => true
    | Some b => forallb valid_build_ident (split_on "." b)
    end in
  let pre_ok :=
    match pre with
    | None => true
    | Some p => forallb valid_pre_ident (split_on "." p)
    end in
  let pre_ids :=
    match pre with
    | None => []
    | Some p => split_on "." p
    end in
  match split_on "." core with
  | [a; b; c] =>
      match parse_num a, parse_num b, parse_num c with
      | Some x, Some y, Some z =>
          if build_ok && pre_ok then Some (mkSemver x y z pre_ids) else None
      | _, _, _ => None
      end
  | _ => None
  end.

(** The version a tag stands for. *)
Definition semver_of (tag : string) : option semver :=
  parse_semver (strip_v tag).

Definition then_cmp (c : comparison) (d : comparison) : comparison :=
  match c with
  | Eq => d
  | _ => c
  end.

Definition cmp_ident (a b : string) : comparison :=
  match is_numeric a, is_numeric b with
  | true, true => N.compare (digits_value 0 a) (digits_value 0 b)
  | true, false => Lt
  | false, true => Gt
  | false, false => String.compare a b
  end.

Fixpoint cmp_idents (l1 l2 : list string) : comparison :=
  match l1, l2 with
  | [], [] => Eq
  | [], _ :: _ => Lt
  | _ :: _, [] => Gt
  | a :: l1', b :: l2' => then_cmp (cmp_ident a b) (cmp_idents l1' l2')
  end.

(** A release is above its prereleases; prereleases compare identifier
    by identifier. *)
Definition cmp_prerelease (pa pb : list string) : comparison :=
  match pa, pb with
  | [], [] => Eq
  | [], _ :: _ => Gt
  | _ :: _, [] => Lt
  | _, _ => cmp_idents pa pb
  end.

(** Precedence: the three numbers first, then the prerelease. *)
Definition cmp_semver (a b : semver) : comparison :=
  then_cmp (N.compare (major a) (major b))
    (then_cmp (N.compare (minor a) (minor b))
       (then_cmp (N.compare (patch a) (patch b))
          (cmp_prerelease (prerelease a) (prerelease b)))).

Definition cmp_option {A : Type} (cmp : A -> A -> comparison)
  (x y : option A) : comparison :=
  match x, y with
  | Some a, Some b => cmp a b
  | Some _, None => Gt
  | None, Some _ => Lt
  | None, None => Eq
  end.

(** Tags compare by their versions; a tag that is no version is below
    every version. *)
Definition cmp_tag (a b : string) : comparison :=
  cmp_option cmp_semver (semver_of a) (semver_of b).

Definition semver_keep (allow_prerelease : pyval) (tag : string) : bool :=
  match semver_of tag with
  | Some v =>
      truthy allow_prerelease
      || match prerelease v with [] => true | _ => false end
  | None => false
  end.

(** Modelled from the spec: [version_filter(versions, allow_prerelease)],
    absent from the sources.  It keeps the strings that parse as versions
    and, unless prereleases are allowed, are releases. *)
Definition semver_filter (versions : list string) (allow_prerelease : pyval)
  : list string :=
  filter (semver_keep allow_prerelease) versions.

(** [y] has to stay in front of [x] when it ranks strictly before it in
    the requested direction; equal tags keep their order. *)
Definition ranks_before (reverse : bool) (y x : string) : bool :=
  match cmp_tag y x with
  | Gt => reverse
  | Lt => negb reverse
  | Eq => false
  end.

Fixpoint sort_insert (reverse : bool) (x : string) (l : list string)
  : list string :=
  match l with
  | [] => [x]
  | y :: l' =>
      if ranks_before reverse y x then y :: sort_insert reverse x l'
      else x :: y :: l'
  end.

(** Modelled from the spec: [version_sort(sortable, reverse=...)], absent
    from the sources.  It orders by semantic version, descending when
    [reverse] is set, and keeps the order of tags of equal precedence as
    Python's [sorted] does. *)
Fixpoint semver_sort (l : list string) (reverse : bool) : list string :=
  match l with
  | [] => []
  | x :: l' => sort_insert reverse x (semver_sort l' reverse)
  end.

(* ================================================================= *)
(** ** A sample site *)

(** What the API answers in the examples, by URL. *)
Definition sample_site : list (string * pyval) :=
  [ ("https://api.bitbucket.org/1.0/repositories/u/r/main-branch",
     PDict [("name", PStr "master")]);
    ("https://api.bitbucket.org/1.0/repositories/u/r/changesets/master",
     PDict [("timestamp", PStr "2014-03-12T10:00:00+00:00")]);
    ("https://api.bitbucket.org/1.0/repositories/u/r/tags",
     PDict [("v1.0.0", PDict []); ("v2.0.0", PDict []); ("v1.5.0", PDict [])]);
    ("https://api.bitbucket.org/1.0/repositories/u/r/changesets/v2.0.0",
     PDict [("timestamp", PStr "2014-03-12 10:00:00+00:00")]);
    ("https://api.bitbucket.org/1.0/repositories/u/r",
     PDict [("name", PStr "r"); ("description", PStr "");
            ("website", PStr ""); ("owner", PStr "u");
            ("has_issues", PBool false)]);
    ("https://api.bitbucket.org/1.0/repositories/u/r/src/master/",
     PDict [("files",
             PList [PDict [("path", PStr "setup.py")];
                    PDict [("path", PStr "README.MD")];
                    PDict [("path", PStr "readme.txt")]])]);
    ("https://api.bitbucket.org/1.0/repositories/u/untagged/tags",
     PDict [("nightly", PDict []); ("tip", PDict [])]) ].

Definition sample_respond (w : log) (url : string) (prefer_cached : bool)
  : exn + pyval :=
  match assoc url sample_site with
  | Some v => inr v
  | None => inl (DownloaderException url)
  end.

Definition sample_settings : list (string * pyval) :=
  [("install_prereleases", PBool false)].

Definition sample_str (v : pyval) : string :=
  match v with
  | PNone => "None"
  | PBool true => "True"
  | PBool false => "False"
  | _ => "<value>"
  end.

(** A comparison function that orders its carrier totally, up to the
    elements it finds equal. *)
Record total_cmp {A : Type} (cmp : A -> A -> comparison) : Prop := {
  cmp_antisym : forall a b, cmp a b = CompOpp (cmp b a);
  cmp_trans : forall a b c, cmp a b <> Gt -> cmp b c <> Gt -> cmp a c <> Gt
}.

(** The [version] entry of a returned dict. *)
Definition version_of (r : exn + pyval) : option pyval :=
  match r with
  | inr (PDict d) => assoc "version" d
  | _ => None
  end.

(** What [repo_info] and [download_info] return for [u/r] on the sample
    site. *)
Definition sample_repo_info : list (string * pyval) :=
  [ ("name", PStr "r");
    ("description", PStr "No description provided");
    ("homepage", PStr "https://bitbucket.org/u/r");
    ("author", PStr "u");
    ("donate", PStr "https://www.gittip.com/on/bitbucket/u/");
    ("readme", PStr "https://bitbucket.org/u/r/raw/master/README.MD");
    ("issues", PNone) ].

Definition sample_download_info : list (string * pyval) :=
  [ ("version", PStr "2014.03.12T10.00.00");
    ("url", PStr "https://bitbucket.org/u/r/get/master.zip");
    ("date", PStr "2014-03-12T10:00:00") ].

Definition sample_tag_download_info : list (string * pyval) :=
  [ ("version", PStr "2.0.0");
    ("url", PStr "https://bitbucket.org/u/r/get/v2.0.0.zip");
    ("date", PStr "2014-03-12 10:00:00") ].

(* ================================================================= *)
(** ** Vocabulary of the URL shapes *)

(** A line feed as a string. *)
Definition nl : string := String newline EmptyString.

(** [scheme://bitbucket?org/path], the [?] standing for the character
    that the dot of the pattern matched. *)
Definition host_url (scheme : string) (dot : ascii) (path : string) : string :=
  scheme ++ "://bitbucket" ++ String dot ("org/" ++ path).

Definition is_scheme (scheme : string) : Prop :=
  scheme = "http" \/ scheme = "https".

(** What [$] lets follow: nothing, or one final line feed. *)
Definition at_end (s : string) : Prop := s = "" \/ s = nl.

(** What [/?$] lets follow. *)
Definition slash_end (s : string) : Prop :=
  s = "" \/ s = "/" \/ s = nl \/ s = "/" ++ nl.

(** A non-empty run of characters other than [/]. *)
Definition segment (s : string) : Prop :=
  s <> "" /\ all_chars (cset_mem not_slash) s = true.

(** A non-empty run of characters other than [#] and [/]. *)
Definition plain_segment (s : string) : Prop :=
  s <> "" /\ all_chars (cset_mem not_hash_slash) s = true.

(** The final continuation of [re_match]. *)
Definition finish : kont := fun i _ g => Some (i, g).

(* ================================================================= *)
(** ** Vocabulary of the fetches *)

(** Run from any log, [m] adds at most [n] calls, and each satisfies [P]. *)
Definition makes {A : Type} (P : call -> Prop) (n : nat) (m : M A) : Prop :=
  forall w, exists calls,
    snd (m w) = (w ++ calls)%list /\ Forall P calls /\ List.length calls <= n.

(** A call to the repositories API; only a main-branch request may ask
    for a cached answer. *)
Definition api_call (c : call) : Prop :=
  exists rest,
    call_url c = "https://api.bitbucket.org/1.0/repositories/" ++ rest /\
    (call_cached c = true -> exists ur, rest = ur ++ "/main-branch").

(** What [_user_repo_branch] makes of the answer to the main-branch
    request for the owner/repo [ur]. *)
Definition branch_of_answer (ur : string) (r : exn + pyval)
  : exn + (pyval * pyval) :=
  match r with
  | inl e => inl e
  | inr (PDict d) =>
      match assoc "name" d with
      | Some b => inr (PStr ur, b)
      | None => inl (KeyError "name")
      end
  | inr _ => inl TypeError
  end.

(** The first of [keys] that the dict [d] lacks. *)
Definition first_missing (keys : list string) (d : list (string * pyval))
  : option string :=
  find (fun k => match assoc k d with None => true | Some _ => false end) keys.

(** The exception a malformed entry of a directory listing raises when
    the readme scan reaches it. *)
Definition entry_error (entry : pyval) : exn :=
  match entry with
  | PDict d =>
      match assoc "path" d with
      | None => KeyError "path"
      | Some _ => AttributeError
      end
  | _ => TypeError
  end.

(** [[^#]] *)
Definition not_hash : cset := CNoneOf ["#"%char].

(* ================================================================= *)
(** ** A second sample site, with ill-shaped answers *)

Definition edge_site : list (string * pyval) :=
  [ ("https://api.bitbucket.org/1.0/repositories/u/odd/tags",
     PDict [("v", PDict [])]);
    ("https://api.bitbucket.org/1.0/repositories/u/odd/changesets/v",
     PDict [("timestamp", PStr "2014-03-12 10:00:00+00:00")]);
    ("https://api.bitbucket.org/1.0/repositories/u/bare/main-branch",
     PDict [("name", PStr "default")]);
    ("https://api.bitbucket.org/1.0/repositories/u/bare",
     PDict [("name", PStr "bare"); ("description", PStr "no website")]);
    ("https://api.bitbucket.org/1.0/repositories/u/bare/changesets/default",
     PDict [("node", PStr "abc123")]);
    ("https://api.bitbucket.org/1.0/repositories/u/half/main-branch",
     PDict [("name", PStr "default")]);
    ("https://api.bitbucket.org/1.0/repositories/u/half",
     PDict [("name", PStr "half"); ("description", PStr "");
            ("website", PStr ""); ("owner", PStr "u")]);
    ("https://api.bitbucket.org/1.0/repositories/u/half/src/default/",
     PDict [("files", PList [PDict [("path", PStr "setup.py")]])]);
    ("https://api.bitbucket.org/1.0/repositories/u/broken/src/default/",
     PDict [("files",
             PList [PDict [("path", PStr "setup.py")];
                    PDict [("size", PInt 12)];
                    PDict [("path", PStr "README")]])]) ].

Definition edge_respond (w : log) (url : string) (prefer_cached : bool)
  : exn + pyval :=
  match assoc url edge_site with
  | Some v => inr v
  | None => inl (DownloaderException url)
  end.

(** Version helpers that keep every name, in the order given. *)
Definition keep_all (versions : list string) (allow_prerelease : pyval)
  : list string := versions.

Definition keep_order (l : list string) (reverse : bool) : list string := l.

(* ================================================================= *)
(** ** The URL shapes in the words of the documentation *)

(** The repo-root form [https://bitbucket.org/{user}/{repo}] of the
    docstrings: scheme [http] or [https], the host as written, two
    non-empty segments without [/], and at most a final slash. *)
Definition spec_root_shape (url : string) : Prop :=
  exists scheme owner repo tail,
    url = scheme ++ "://bitbucket.org/" ++ owner ++ "/" ++ repo ++ tail /\
    is_scheme scheme /\ segment owner /\ segment repo /\
    (tail = "" \/ tail = "/").

(** The branch form [https://bitbucket.org/{user}/{repo}/src/{branch}]. *)
Definition spec_branch_shape (url : string) : Prop :=
  exists scheme owner repo branch tail,
    url = scheme ++ "://bitbucket.org/" ++ owner ++ "/" ++ repo
            ++ "/src/" ++ branch ++ tail /\
    is_scheme scheme /\ segment owner /\ segment repo /\ segment branch /\
    (tail = "" \/ tail = "/").

(** The tags form [https://bitbucket.org/{user}/{repo}/#tags], the slash
    before the marker being optional. *)
Definition spec_tags_shape (url : string) : Prop :=
  exists scheme owner repo sl,
    url = scheme ++ "://bitbucket.org/" ++ owner ++ "/" ++ repo
            ++ sl ++ "#tags" /\
    is_scheme scheme /\ segment owner /\ segment repo /\
    (sl = "" \/ sl = "/").

(** Three URLs that the documentation does not offer to [repo_info]; the
    first two have none of the documented forms at all. *)
Definition foreign_host_url : string := "http://bitbucketXorg/u/r".
Definition line_feed_url : string := "https://bitbucket.org/u/r/" ++ nl.
Definition hash_tags_url : string := "https://bitbucket.org/u/r#tags".

(* ================================================================= *)
(** ** A sample site with a repository named [r#tags] *)

Definition hash_site : list (string * pyval) :=
  [ ("https://api.bitbucket.org/1.0/repositories/u/r#tags/main-branch",
     PDict [("name", PStr "master")]);
    ("https://api.bitbucket.org/1.0/repositories/u/r#tags",
     PDict [("name", PStr "r"); ("description", PStr "");
            ("website", PStr ""); ("owner", PStr "u");
            ("has_issues", PBool true)]);
    ("https://api.bitbucket.org/1.0/repositories/u/r#tags/src/master/",
     PDict [("files", PList [PDict [("path", PStr "Readme.rst")]])]) ].

Definition hash_respond (w : log) (url : string) (prefer_cached : bool)
  : exn + pyval :=
  match assoc url hash_site with
  | Some v => inr v
  | None => inl (DownloaderException url)
  end.

Section Client.

(** What [fetch_json(url, prefer_cached)] answers, given the calls made
    before it. *)
Variable respond : log -> string -> bool -> exn + pyval.
(** [self.settings] *)
Variable settings : list (string * pyval).
(** [version_filter(versions, allow_prerelease)] and
    [version_sort(sortable, reverse=...)] of [package_control.versions]. *)
Variable version_filter : list string -> pyval -> list string.
Variable version_sort : list string -> bool -> list string.
(** How [%s] renders a value that is not a string. *)
Variable py_str : pyval -> string.

Definition fmt (v : pyval) : string :=
  match v with
  | PStr s => s
  | _ => py_str v
  end.

Definition fetch_json (url : string) (prefer_cached : bool) : M pyval :=
  fun w =>
    let r := respond w url prefer_cached in
    (r, (w ++ [mkCall url prefer_cached r])%list).

Definition _make_api_url (user_repo : pyval) (suffix : string) : string :=
  "https://api.bitbucket.org/1.0/repositories/" ++ fmt user_repo ++ suffix.

Definition _main_branch_name (user_repo : pyval) : M pyval :=
  let main_branch_url := _make_api_url user_repo "/main-branch" in
  main_branch_info <- fetch_json main_branch_url true ;;
  getitem main_branch_info "name".

Definition _user_repo_branch (url : string) : M (pyval * pyval) :=
  let repo_match := re_match repo_re url in
  let branch_match := re_match branch_re url in
  match repo_match with
  | Some g =>
      let user_repo := PStr (group 1 g) in
      branch <- _main_branch_name user_repo ;;
      ret (user_repo, branch)
  | None =>
      match branch_match with
      | Some g =>
          let user_repo := PStr (group 1 g) in
          let branch := PStr (group 2 g) in
          ret (user_repo, branch)
      | None => ret (PNone, PNone)
      end
  end.

Definition raw_url (user_repo branch path : pyval) : string :=
  "https://bitbucket.org/" ++ fmt user_repo ++ "/raw/" ++ fmt branch
    ++ "/" ++ fmt path.

(** The [for entry in root_dir_info['files']] loop. *)
Fixpoint readme_scan (user_repo branch : pyval) (entries : list pyval)
  : M pyval :=
  match entries with
  | [] => ret PNone
  | entry :: rest =>
      path <- getitem entry "path" ;;
      lowered <- py_lower path ;;
      if str_in lowered _readme_filenames
      then ret (PStr (raw_url user_repo branch path))
      else readme_scan user_repo branch rest
  end.

Definition _readme_url (user_repo branch : pyval) (prefer_cached : bool)
  : M pyval :=
  let listing_url :=
    _make_api_url user_repo ("/src/" ++ fmt branch ++ "/") in
  root_dir_info <- fetch_json listing_url prefer_cached ;;
  files <- getitem root_dir_info "files" ;;
  entries <- py_iter files ;;
  readme_scan user_repo branch entries.

Definition repo_info (url : string) : M pyval :=
  ' (user_repo, branch) <- _user_repo_branch url ;;
  if negb (truthy user_repo) then ret user_repo else
  let api_url := _make_api_url user_repo "" in
  info <- fetch_json api_url false ;;
  let issues_url := "https://bitbucket.org/" ++ fmt user_repo ++ "/issues" in
  name <- getitem info "name" ;;
  description <- getitem info "description" ;;
  website <- getitem info "website" ;;
  author <- getitem info "owner" ;;
  owner <- getitem info "owner" ;;
  readme <- _readme_url user_repo branch false ;;
  has_issues <- getitem info "has_issues" ;;
  ret (PDict
    [ ("name", name);
      ("description", py_or description (PStr "No description provided"));
      ("homepage", py_or website (PStr url));
      ("author", author);
      ("donate", PStr ("https://www.gittip.com/on/bitbucket/" ++ fmt owner ++ "/"));
      ("readme", readme);
      ("issues", if truthy has_issues then PStr issues_url else PNone) ]).

Definition _commit_info (url : string) : M pyval :=
  let tags_match := re_match tags_re url in
  let version := PNone in
  resolved <-
    match tags_match with
    | Some g =>
        let user_repo := PStr (group 1 g) in
        let tags_url := _make_api_url user_repo "/tags" in
        tags_list <- fetch_json tags_url false ;;
        keys <- py_keys tags_list ;;
        let tags :=
          version_filter keys (dict_get settings "install_prereleases") in
        let tags := version_sort tags true in
        match tags with
        | [] => ret (Return (PBool false))
        | commit :: _ =>
            let version := PStr (re_sub leading_v_re "" commit) in
            ret (Next (user_repo, PStr commit, version))
        end
    | None =>
        ' (user_repo, commit) <- _user_repo_branch url ;;
        if negb (truthy user_repo) then ret (Return user_repo)
        else ret (Next (user_repo, commit, version))
    end ;;
  match resolved with
  | Return v => ret v
  | Next (user_repo, commit, version) =>
      let changeset_url :=
        _make_api_url user_repo ("/changesets/" ++ fmt commit) in
      commit_info <- fetch_json changeset_url false ;;
      timestamp <- getitem commit_info "timestamp" ;;
      commit_date <- py_slice timestamp 19 ;;
      version <-
        (if negb (truthy version)
         then py_re_sub date_sep_re "." commit_date
         else ret version) ;;
      ret (PDict
        [ ("user_repo", user_repo);
          ("timestamp", commit_date);
          ("commit", commit);
          ("version", version) ])
  end.

Definition download_info (url : string) : M pyval :=
  commit_info <- _commit_info url ;;
  if negb (truthy commit_info) then ret commit_info else
  version <- getitem commit_info "version" ;;
  user_repo <- getitem commit_info "user_repo" ;;
  commit <- getitem commit_info "commit" ;;
  date <- getitem commit_info "timestamp" ;;
  ret (PDict
    [ ("version", version);
      ("url", PStr ("https://bitbucket.org/" ++ fmt user_repo ++ "/get/"
                      ++ fmt commit ++ ".zip"));
      ("date", date) ]).



(* ================================================================= *)
(** ** Facts about strings and the matcher *)

Lemma take_all (s : string) : take (String.length s) s = s.
Proof.
  unfold take. induction s as [|a s IH]; simpl; [reflexivity|].
  now rewrite IH.
Qed.

Lemma take_app (u v : string) : take (String.length u) (u ++ v) = u.
Proof.
  unfold take. induction u as [|a u IH]; simpl.
  - destruct v; reflexivity.
  - now rewrite IH.
Qed.

Lemma take_length (n : nat) (s : string) :
  n <= String.length s -> String.length (take n s) = n.
Proof.
  unfold take. revert n. induction s as [|a s IH]; intros [|n] H; simpl in *;
    try reflexivity; try lia.
  rewrite IH; lia.
Qed.

Lemma app_length (u v : string) :
  String.length (u ++ v) = String.length u + String.length v.
Proof. induction u as [|a u IH]; simpl; [reflexivity | now rewrite IH]. Qed.

Lemma star_stops c i s g k : stops c s = true -> star c i s g k = k i s g.
Proof.
  destruct s as [|a s]; simpl; [reflexivity|].
  intros H. apply negb_true_iff in H. now rewrite H.
Qed.

(** A greedy repetition runs over a block of matching characters; when the
    continuation accepts what follows the block, that is the match. *)
Lemma star_run c u : forall i rest g k res,
  all_chars (cset_mem c) u = true ->
  stops c rest = true ->
  k (i + String.length u) rest g = Some res ->
  star c i (u ++ rest) g k = Some res.
Proof.
  induction u as [|a u IH]; intros i rest g k res Hu Hr Hk; simpl in *.
  - rewrite star_stops by assumption. now rewrite Nat.add_0_r in Hk.
  - apply andb_true_iff in Hu as [Ha Hu]. rewrite Ha.
    rewrite (IH (S i) rest g k res); auto.
    now rewrite <- Hk; f_equal; lia.
Qed.

Lemma plus_run c u i rest g k res :
  u <> "" ->
  all_chars (cset_mem c) u = true ->
  stops c rest = true ->
  k (i + String.length u) rest g = Some res ->
  rmatch (RPlus c) i (u ++ rest) g k = Some res.
Proof.
  destruct u as [|a u]; [congruence|]. intros _ Hu Hr Hk. simpl in *.
  apply andb_true_iff in Hu as [Ha Hu]. rewrite Ha.
  apply star_run; auto. now rewrite <- Hk; f_equal; lia.
Qed.

Lemma all_chars_app p u v :
  all_chars p (u ++ v) = all_chars p u && all_chars p v.
Proof.
  induction u as [|a u IH]; simpl; [reflexivity|].
  now rewrite IH, andb_assoc.
Qed.

Lemma append_empty_r (s : string) : s ++ "" = s.
Proof. induction s as [|a s IH]; simpl; [reflexivity | now rewrite IH]. Qed.

Lemma rmatch_seq r1 r2 i s g k :
  rmatch (RSeq r1 r2) i s g k
  = rmatch r1 i s g (fun i' s' g' => rmatch r2 i' s' g' k).
Proof. reflexivity. Qed.

Lemma rmatch_group r i s g k :
  rmatch (RGroup r) i s g k
  = rmatch r i s g (fun i' s' g' => k i' s' (g' ++ [take (i' - i) s])%list).
Proof. reflexivity. Qed.

(** The host prefix on a well-formed URL: the scheme may or may not end
    in [s]; what follows the host is matched from offset 22 or 21. *)
Lemma host_prefix_https r s g k :
  rmatch (host_prefix r) 0 ("https://bitbucket.org/" ++ s) g k
  = rmatch r 22 s g k.
Proof.
  unfold host_prefix. cbn.
  destruct (rmatch r 22 s g k); reflexivity.
Qed.

Lemma host_prefix_http r s g k :
  rmatch (host_prefix r) 0 ("http://bitbucket.org/" ++ s) g k
  = rmatch r 21 s g k.
Proof. unfold host_prefix. cbn. reflexivity. Qed.

(** [user/seg], both parts non-empty and free of slashes, matched by
    [([^/]+/[^/]+)/?$] from offset [i]. *)
Lemma repo_tail_matches (i : nat) (user seg : string) :
  user <> "" -> seg <> "" ->
  all_chars (cset_mem not_slash) user = true ->
  all_chars (cset_mem not_slash) seg = true ->
  rmatch
    (RSeq (RGroup (RSeq (RPlus not_slash)
                     (RSeq (RChr (CChar "/"%char)) (RPlus not_slash))))
       (RSeq (ROpt (CChar "/"%char)) REnd))
    i (user ++ "/" ++ seg) [] (fun i' _ g => Some (i', g))
  = Some (i + String.length (user ++ "/" ++ seg), [user ++ "/" ++ seg]).
Proof.
  intros Hu Hs Au As.
  rewrite rmatch_seq, rmatch_group, rmatch_seq.
  apply plus_run; auto.
  rewrite rmatch_seq. cbn [append rmatch cset_mem]. rewrite Ascii.eqb_refl.
  rewrite <- (append_empty_r seg) at 1.
  apply plus_run; auto.
  cbn [rmatch app]. rewrite !app_length. cbn [String.length].
  replace (S (i + String.length user) + String.length seg - i)
    with (String.length (user ++ String "/" seg))
    by (rewrite app_length; cbn [String.length]; lia).
  rewrite take_all. apply f_equal, (f_equal2 pair); [lia | reflexivity].
Qed.

Lemma repo_re_matches_segment (user seg : string) :
  user <> "" -> seg <> "" ->
  all_chars (cset_mem not_slash) user = true ->
  all_chars (cset_mem not_slash) seg = true ->
  re_match repo_re ("https://bitbucket.org/" ++ user ++ "/" ++ seg)
  = Some [user ++ "/" ++ seg].
Proof.
  intros Hu Hs Au As. unfold re_match, repo_re.
  rewrite host_prefix_https, repo_tail_matches by assumption.
  reflexivity.
Qed.

Lemma repo_re_matches_segment_http (user seg : string) :
  user <> "" -> seg <> "" ->
  all_chars (cset_mem not_slash) user = true ->
  all_chars (cset_mem not_slash) seg = true ->
  re_match repo_re ("http://bitbucket.org/" ++ user ++ "/" ++ seg)
  = Some [user ++ "/" ++ seg].
Proof.
  intros Hu Hs Au As. unfold re_match, repo_re.
  rewrite host_prefix_http, repo_tail_matches by assumption.
  reflexivity.
Qed.

Ltac solve_inv :=
  repeat split; auto; cbn [String.length List.length]; lia.

Lemma star_inv c s : forall i g k res,
  star c i s g k = Some res ->
  exists i' s',
    k i' s' g = Some res /\ i <= i' /\
    String.length s = (i' - i) + String.length s'.
Proof.
  induction s as [|a s IH]; intros i g k res H; simpl in H.
  - exists i, "". solve_inv.
  - destruct (cset_mem c a).
    + destruct (star c (S i) s g k) as [r'|] eqn:E.
      * injection H as ->. apply IH in E as (i' & s' & Hk & Hi & Hl).
        exists i', s'. solve_inv.
      * exists i, (String a s). solve_inv.
    + exists i, (String a s). solve_inv.
Qed.

Lemma rmatch_inv r : forall i s g k res,
  groups_consume r = true ->
  rmatch r i s g k = Some res ->
  exists i' s' new,
    k i' s' (g ++ new)%list = Some res /\
    i + min_len r <= i' /\
    String.length s = (i' - i) + String.length s' /\
    List.length new = ngroups r /\
    Forall nonempty new.
Proof.
  induction r as [c|c|c|r1 IH1 r2 IH2|r1 IH1| |]; intros i s g k res Hg H;
    cbn [rmatch min_len ngroups] in *.
  - destruct s as [|a s]; [discriminate|].
    destruct (cset_mem c a); [|discriminate].
    exists (S i), s, []. rewrite app_nil_r. solve_inv.
  - destruct s as [|a s].
    + exists i, "", []. rewrite app_nil_r. solve_inv.
    + destruct (cset_mem c a).
      * destruct (k (S i) s g) as [r'|] eqn:E.
        -- injection H as ->. exists (S i), s, []. rewrite app_nil_r.
           solve_inv.
        -- exists i, (String a s), []. rewrite app_nil_r.
           solve_inv.
      * exists i, (String a s), []. rewrite app_nil_r.
        solve_inv.
  - destruct s as [|a s]; [discriminate|].
    destruct (cset_mem c a); [|discriminate].
    apply star_inv in H as (i' & s' & Hk & Hi & Hl).
    exists i', s', []. rewrite app_nil_r. solve_inv.
  - cbn [groups_consume] in Hg. apply andb_true_iff in Hg as [Hg1 Hg2].
    apply IH1 in H as (i1 & s1 & n1 & H & Hi1 & Hl1 & Hn1 & Hf1); auto.
    apply IH2 in H as (i2 & s2 & n2 & H & Hi2 & Hl2 & Hn2 & Hf2); auto.
    exists i2, s2, (n1 ++ n2)%list. rewrite app_assoc.
    repeat split; auto; try lia.
    + rewrite length_app; lia.
    + apply Forall_app; auto.
  - cbn [groups_consume] in Hg. apply andb_true_iff in Hg as [Hm Hg1].
    apply Nat.leb_le in Hm.
    apply IH1 in H as (i1 & s1 & n1 & H & Hi1 & Hl1 & Hn1 & Hf1); auto.
    exists i1, s1, (n1 ++ [take (i1 - i) s])%list. rewrite app_assoc.
    repeat split; auto; try lia.
    + rewrite length_app; simpl; lia.
    + apply Forall_app; split; auto. constructor; [|constructor].
      intros E. apply (f_equal String.length) in E.
      rewrite take_length in E by lia. simpl in E. lia.
  - destruct (Nat.eqb i 0); [|discriminate].
    exists i, s, []. rewrite app_nil_r. solve_inv.
  - exists i, s, []. rewrite app_nil_r.
    assert (k i s g = Some res).
    { destruct s as [|a [|b s]]; auto; [|discriminate].
      destruct (Ascii.eqb a newline); [auto|discriminate]. }
    solve_inv.
Qed.

(** The groups of a successful [re.match] are all there and non-empty. *)
Lemma re_match_groups r s g :
  groups_consume r = true ->
  re_match r s = Some g ->
  List.length g = ngroups r /\ Forall nonempty g.
Proof.
  unfold re_match. intros Hg H.
  destruct (rmatch r 0 s [] (fun i _ g => Some (i, g))) as [[i' g']|] eqn:E;
    [|discriminate].
  injection H as ->.
  apply rmatch_inv in E as (i1 & s1 & new & E & _ & _ & Hn & Hf); auto.
  simpl in E. injection E as _ <-. auto.
Qed.

Lemma group1_nonempty r s g :
  groups_consume r = true -> 1 <= ngroups r ->
  re_match r s = Some g -> group 1 g <> "".
Proof.
  intros Hg Hn H. apply re_match_groups in H as [Hl Hf]; auto.
  destruct g as [|x g]; [simpl in Hl; lia|].
  inversion Hf; subst. assumption.
Qed.

(** *** The two substitutions *)

Lemma sub_loop_date_sep (s : string) : forall i,
  sub_loop date_sep_re "." 0 i s = dotted s.
Proof.
  induction s as [|a s IH]; intros i; [reflexivity|].
  cbn [sub_loop dotted]. unfold match_len, date_sep_re.
  cbn [rmatch cset_mem]. fold (is_date_sep a).
  destruct (is_date_sep a).
  - replace (S i - i) with 1 by lia. cbn [append]. now rewrite IH.
  - now rewrite IH.
Qed.

Lemma re_sub_date_sep (s : string) : re_sub date_sep_re "." s = dotted s.
Proof. apply sub_loop_date_sep. Qed.

Lemma sub_loop_leading_v_later (s : string) : forall i,
  sub_loop leading_v_re "" 0 (S i) s = s.
Proof.
  induction s as [|a s IH]; intros i; [reflexivity|].
  cbn [sub_loop]. unfold match_len, leading_v_re. cbn [rmatch Nat.eqb].
  now rewrite IH.
Qed.

Lemma re_sub_leading_v (s : string) : re_sub leading_v_re "" s = strip_v s.
Proof.
  destruct s as [|a s]; [reflexivity|].
  unfold re_sub. cbn [sub_loop strip_v]. unfold match_len, leading_v_re.
  cbn [rmatch Nat.eqb cset_mem].
  destruct (Ascii.eqb a "v"); cbn [Nat.sub append];
    now rewrite sub_loop_leading_v_later.
Qed.

(** *** The monad *)

Lemma bind_inr {A B} (m : M A) (f : A -> M B) w b w' :
  bind m f w = (inr b, w') ->
  exists a w1, m w = (inr a, w1) /\ f a w1 = (inr b, w').
Proof.
  unfold bind. destruct (m w) as [[e|a] w1]; [discriminate|].
  intros H. now exists a, w1.
Qed.

Lemma bind_ok {A B} (m : M A) (f : A -> M B) w a w1 :
  m w = (inr a, w1) -> bind m f w = f a w1.
Proof. unfold bind. now intros ->. Qed.

Lemma getitem_inr v k x w w' :
  getitem v k w = (inr x, w') ->
  exists d, v = PDict d /\ assoc k d = Some x /\ w' = w.
Proof.
  destruct v; try discriminate. simpl.
  destruct (assoc k d) as [y|] eqn:E; [|discriminate].
  unfold ret. intros H. injection H as -> ->. now exists d.
Qed.

Lemma answered_app w calls1 : forall calls2,
  answered respond w calls1 ->
  answered respond (w ++ calls1)%list calls2 ->
  answered respond w (calls1 ++ calls2)%list.
Proof.
  revert w. induction calls1 as [|c cs IH]; intros w calls2 H1 H2; simpl in *.
  - now rewrite app_nil_r in H2.
  - destruct H1 as [Hc H1]. split; [assumption|].
    apply IH; [assumption|]. now rewrite <- app_assoc.
Qed.

Lemma tidy_refl {A} (r : exn + A) w : tidy respond w (r, w).
Proof.
  rewrite <- (app_nil_r w) at 2. constructor; [exact I | constructor].
Qed.

Lemma propagates_ret {A} (a : A) : propagates respond (ret a).
Proof. intros w. apply tidy_refl. Qed.

Lemma propagates_raise {A} (e : exn) : propagates respond (@raise A e).
Proof. intros w. apply tidy_refl. Qed.

Lemma propagates_bind {A B} (m : M A) (f : A -> M B) :
  propagates respond m -> (forall a, propagates respond (f a)) ->
  propagates respond (bind m f).
Proof.
  intros Hm Hf w. unfold bind. specialize (Hm w).
  inversion Hm as [r calls Ha Hc E | e calls c Ha Hc He E]; subst.
  - destruct r as [e|a]; [now constructor|].
    specialize (Hf a (w ++ calls)%list).
    inversion Hf as [r2 calls2 Ha2 Hc2 E2 | e2 calls2 c2 Ha2 Hc2 He2 E2];
      subst.
    + rewrite <- app_assoc. constructor.
      * now apply answered_app.
      * now apply Forall_app.
    + rewrite <- app_assoc, (app_assoc calls). apply tidy_failed; auto.
      * rewrite <- app_assoc. now apply answered_app.
      * now apply Forall_app.
  - now apply tidy_failed.
Qed.

Lemma propagates_fetch url prefer_cached :
  propagates respond (fetch_json url prefer_cached).
Proof.
  intros w. unfold fetch_json.
  destruct (respond w url prefer_cached) as [e|v] eqn:E.
  - apply (tidy_failed respond w e [] (mkCall url prefer_cached (inl e)));
      simpl; auto.
  - apply (tidy_done respond w (inr v) [mkCall url prefer_cached (inr v)]).
    + simpl; auto.
    + constructor; [now exists v | constructor].
Qed.

Ltac propagate :=
  repeat first
    [ apply propagates_ret
    | apply propagates_raise
    | apply propagates_fetch
    | apply propagates_bind; [| intros ?]
    | match goal with
      | |- propagates _ (match ?x with _ => _ end) => destruct x
      end ].

Lemma propagates_getitem v k : propagates respond (getitem v k).
Proof. unfold getitem. propagate. Qed.

Lemma propagates_readme_scan user_repo branch entries :
  propagates respond (readme_scan user_repo branch entries).
Proof.
  induction entries as [|e es IH]; cbn [readme_scan].
  - propagate.
  - unfold getitem, py_lower. propagate. exact IH.
Qed.

Lemma propagates_readme_url user_repo branch prefer_cached :
  propagates respond (_readme_url user_repo branch prefer_cached).
Proof.
  unfold _readme_url, getitem, py_iter. propagate;
    apply propagates_readme_scan.
Qed.

Lemma propagates_user_repo_branch url :
  propagates respond (_user_repo_branch url).
Proof.
  unfold _user_repo_branch, _main_branch_name, getitem. propagate.
Qed.

Lemma propagates_repo_info url : propagates respond (repo_info url).
Proof.
  unfold repo_info.
  apply propagates_bind; [apply propagates_user_repo_branch|].
  intros [user_repo branch]. destruct (negb (truthy user_repo)).
  - propagate.
  - repeat first
      [ apply propagates_getitem | apply propagates_readme_url
      | apply propagates_fetch | apply propagates_ret
      | apply propagates_bind; [| intros ?] ].
Qed.

Lemma propagates_commit_info url : propagates respond (_commit_info url).
Proof.
  unfold _commit_info. apply propagates_bind.
  - destruct (re_match tags_re url).
    + unfold py_keys. propagate.
    + apply propagates_bind; [apply propagates_user_repo_branch|].
      intros [user_repo commit]. propagate.
  - intros [v|[[user_repo commit] version]]; [propagate|].
    unfold getitem, py_slice, py_re_sub. propagate.
Qed.

Lemma propagates_download_info url :
  propagates respond (download_info url).
Proof.
  unfold download_info.
  apply propagates_bind; [apply propagates_commit_info|].
  intros commit_info. destruct (negb (truthy commit_info)); [propagate|].
  repeat first
    [ apply propagates_getitem | apply propagates_ret
    | apply propagates_bind; [| intros ?] ].
Qed.

Lemma last_call_split (calls pre post : list call) (c0 c : call) :
  (calls ++ [c0] = pre ++ c :: post)%list ->
  (post = [] /\ c = c0) \/ In c calls.
Proof.
  intros E. destruct post as [|p post _] using rev_ind.
  - apply app_inj_tail in E as [_ ->]. now left.
  - right. rewrite app_comm_cons, app_assoc in E.
    apply app_inj_tail in E as [-> _]. apply in_or_app. right. now left.
Qed.

Lemma tidy_fails_only_last {A} w (out : (exn + A) * log) :
  tidy respond w out -> fails_only_last respond w out.
Proof.
  intros H. inversion H as [r calls Ha Hc E | e calls c0 Ha Hc He E]; subst.
  - exists calls. split; [reflexivity | split; [assumption|]].
    intros pre c post e -> Hf. rewrite Forall_forall in Hc.
    destruct (Hc c) as [v Hv]; [apply in_or_app; right; now left|].
    congruence.
  - exists (calls ++ [c0])%list. split; [reflexivity | split; [assumption|]].
    intros pre c post e' E Hf.
    destruct (last_call_split _ _ _ _ _ E) as [[-> ->]|Hin].
    + simpl. split; congruence.
    + rewrite Forall_forall in Hc. destruct (Hc c Hin) as [v Hv]. congruence.
Qed.

(** C10. Whatever the URL and whatever the collaborator answers, a fetch
    that fails during [download_info] or [repo_info] is the last call the
    operation makes, and the operation ends with exactly the exception
    that fetch raised: no retry, no wrapping, no value returned. *)
Theorem fetch_failure_propagates (url : string) (w : log) :
  fails_only_last respond w (download_info url w) /\
  fails_only_last respond w (repo_info url w).
Proof.
  split; apply tidy_fails_only_last.
  - apply propagates_download_info.
  - apply propagates_repo_info.
Qed.

(** *** Decomposing the URL *)

Lemma repo_re_group1 url g : re_match repo_re url = Some g -> group 1 g <> "".
Proof.
  apply group1_nonempty; [reflexivity | vm_compute; lia].
Qed.

Lemma branch_re_group1 url g :
  re_match branch_re url = Some g -> group 1 g <> "".
Proof.
  apply group1_nonempty; [reflexivity | vm_compute; lia].
Qed.

Lemma user_repo_branch_unmatched url w :
  re_match repo_re url = None -> re_match branch_re url = None ->
  _user_repo_branch url w = (inr (PNone, PNone), w).
Proof. unfold _user_repo_branch. now intros -> ->. Qed.

(** What [_user_repo_branch] hands back is the pair of nones or a
    non-empty owner/repo string taken from the URL. *)
Lemma user_repo_branch_inv url w user_repo branch w1 :
  _user_repo_branch url w = (inr (user_repo, branch), w1) ->
  (user_repo = PNone /\ branch = PNone /\ w1 = w /\ user_repo_of url = None)
  \/ (exists ur, user_repo = PStr ur /\ ur <> "" /\ user_repo_of url = Some ur).
Proof.
  unfold _user_repo_branch, user_repo_of.
  destruct (re_match repo_re url) as [g|] eqn:Er.
  - intros H. apply bind_inr in H as (b & w2 & _ & H).
    injection H as <- _ _. right. exists (group 1 g).
    repeat split; auto. now apply (repo_re_group1 url).
  - destruct (re_match branch_re url) as [g|] eqn:Eb; intros H;
      injection H as <- <- <-.
    + right. exists (group 1 g). repeat split; auto.
      now apply (branch_re_group1 url).
    + left. auto.
Qed.

(** The no-match rule.  A URL that matches neither the repo-root nor the
    branch pattern makes [repo_info] return [None]; if it does not match
    the [#tags] pattern either, [download_info] returns [None] too.
    Neither makes a fetch: the log is unchanged. *)
Lemma unmatched_url_returns_None (url : string) (w : log) :
  re_match repo_re url = None ->
  re_match branch_re url = None ->
  repo_info url w = (inr PNone, w) /\
  (re_match tags_re url = None -> download_info url w = (inr PNone, w)).
Proof.
  intros Hr Hb. split.
  - unfold repo_info.
    now rewrite (bind_ok _ _ _ _ _ (user_repo_branch_unmatched url w Hr Hb)).
  - intros Ht. unfold download_info, _commit_info. rewrite Ht.
    unfold bind at 1 2 3.
    now rewrite (user_repo_branch_unmatched url w Hr Hb).
Qed.

(** C2. On a URL of the [#tags] shape, when the tags fetch answers a
    mapping none of whose names survives [version_filter] under the
    [install_prereleases] setting, [download_info] returns [False] -- a
    value, not an exception, and not [None] -- after that single fetch. *)
Theorem no_eligible_tag_returns_False (url : string) (g : list string)
    (w : log) (tags : list (string * pyval)) :
  re_match tags_re url = Some g ->
  respond w (_make_api_url (PStr (group 1 g)) "/tags") false
    = inr (PDict tags) ->
  version_filter (map fst tags) (dict_get settings "install_prereleases")
    = [] ->
  version_sort [] true = [] ->
  download_info url w
  = (inr (PBool false),
     (w ++ [mkCall (_make_api_url (PStr (group 1 g)) "/tags") false
              (inr (PDict tags))])%list)
  /\ PBool false <> PNone.
Proof.
  intros Hm Hr Hf Hs. split; [|discriminate].
  unfold download_info, _commit_info. rewrite Hm.
  unfold bind, fetch_json. rewrite Hr. cbn [py_keys ret].
  rewrite Hf, Hs. reflexivity.
Qed.

(** *** Runs that cannot end in [None] *)

Lemma never_none_bind {A} (m : M A) (f : A -> M pyval) :
  (forall a, never_none (f a)) -> never_none (bind m f).
Proof.
  intros H w. unfold bind. destruct (m w) as [[e|a] w1]; [discriminate|].
  apply H.
Qed.

Lemma never_none_dict d : never_none (ret (PDict d)).
Proof. intros w. discriminate. Qed.

(** Once the owner/repo is known, [repo_info] ends in a dict or in an
    exception. *)
Lemma repo_info_proceeds url ur (m : M (pyval * pyval)) :
  ur <> "" ->
  (forall w a w1, m w = (inr a, w1) -> fst a = PStr ur) ->
  never_none
    (' (user_repo, branch) <- m ;;
     if negb (truthy user_repo) then ret user_repo else
     let api_url := _make_api_url user_repo "" in
     info <- fetch_json api_url false ;;
     let issues_url := "https://bitbucket.org/" ++ fmt user_repo ++ "/issues" in
     name <- getitem info "name" ;;
     description <- getitem info "description" ;;
     website <- getitem info "website" ;;
     author <- getitem info "owner" ;;
     owner <- getitem info "owner" ;;
     readme <- _readme_url user_repo branch false ;;
     has_issues <- getitem info "has_issues" ;;
     ret (PDict
       [ ("name", name);
         ("description", py_or description (PStr "No description provided"));
         ("homepage", py_or website (PStr url));
         ("author", author);
         ("donate", PStr ("https://www.gittip.com/on/bitbucket/" ++ fmt owner ++ "/"));
         ("readme", readme);
         ("issues", if truthy has_issues then PStr issues_url else PNone) ])).
Proof.
  intros Hur Hm w. unfold bind at 1.
  destruct (m w) as [[e|[user_repo branch]] w1] eqn:E; [discriminate|].
  apply Hm in E. simpl in E. subst user_repo.
  assert (Ht : truthy (PStr ur) = true).
  { simpl. destruct ur; [congruence | reflexivity]. }
  rewrite Ht. cbn [negb]. cbv zeta.
  repeat (apply never_none_bind; intros ?). apply never_none_dict.
Qed.

Lemma bind_assoc {A B C} (m : M A) (f : A -> M B) (g : B -> M C) w :
  bind (bind m f) g w = bind m (fun a => bind (f a) g) w.
Proof. unfold bind. now destruct (m w) as [[e|a] w1]. Qed.

Lemma run_extends {A} (m : M A) w :
  propagates respond m -> exists calls, snd (m w) = (w ++ calls)%list.
Proof.
  intros H. specialize (H w). inversion H; subst; simpl; eauto.
Qed.

(** A run that starts with a fetch logs that fetch first. *)
Lemma fetch_first {B} url prefer_cached (f : pyval -> M B) w :
  (forall v, propagates respond (f v)) ->
  exists later,
    snd (bind (fetch_json url prefer_cached) f w)
    = (w ++ mkCall url prefer_cached (respond w url prefer_cached)
         :: later)%list.
Proof.
  intros Hf. unfold bind, fetch_json.
  destruct (respond w url prefer_cached) as [e|v].
  - now exists [].
  - destruct (run_extends (f v)
                (w ++ [mkCall url prefer_cached (inr v)])%list (Hf v))
      as [calls ->].
    exists calls. now rewrite <- app_assoc.
Qed.

Ltac propagate_all :=
  repeat first
    [ apply propagates_ret
    | apply propagates_raise
    | apply propagates_fetch
    | apply propagates_getitem
    | apply propagates_readme_url
    | apply propagates_bind; [| intros ?]
    | match goal with
      | |- propagates _ (match ?x with _ => _ end) => destruct x
      end ].

(** *** The version made from the commit timestamp *)

Lemma truthy_nonempty ur : ur <> "" -> truthy (PStr ur) = true.
Proof. destruct ur; [congruence | reflexivity]. Qed.

(** C1 (amended). On a repo-root or branch URL, [download_info] builds the
    version from the commit timestamp: its first 19 characters with every
    [-], [:] and space turned into a dot, and nothing else changed.  A
    timestamp written with a space between date and time gives
    [2014.03.12.10.00.00]; the [T] of "2014-03-12T10:00:00+00:00" stays. *)
Theorem timestamp_version (url : string) (w w1 : log) (ur : string)
    (commit : pyval) (info : list (string * pyval)) (ts : string) :
  re_match tags_re url = None ->
  _user_repo_branch url w = (inr (PStr ur, commit), w1) ->
  respond w1 (_make_api_url (PStr ur) ("/changesets/" ++ fmt commit)) false
    = inr (PDict info) ->
  assoc "timestamp" info = Some (PStr ts) ->
  fst (download_info url w)
  = inr (PDict
      [ ("version", PStr (dotted (take 19 ts)));
        ("url", PStr ("https://bitbucket.org/" ++ ur ++ "/get/"
                        ++ fmt commit ++ ".zip"));
        ("date", PStr (take 19 ts)) ])
  /\ dotted (take 19 "2014-03-12 10:00:00+00:00") = "2014.03.12.10.00.00"
  /\ dotted (take 19 "2014-03-12T10:00:00+00:00") = "2014.03.12T10.00.00".
Proof.
  intros Ht Hu Hr Hts. split; [|split; reflexivity].
  assert (Hne : truthy (PStr ur) = true).
  { apply truthy_nonempty.
    destruct (user_repo_branch_inv _ _ _ _ _ Hu) as [(E & _)|(x & E & Hx & _)];
      [discriminate | now injection E as <-]. }
  unfold download_info, _commit_info. rewrite Ht.
  unfold bind. rewrite Hu, Hne. cbn [negb ret].
  unfold fetch_json. rewrite Hr. cbn [getitem]. rewrite Hts.
  cbn [ret py_slice slice truthy negb py_re_sub].
  rewrite re_sub_date_sep. reflexivity.
Qed.

(** *** The readme scan *)

Lemma path_of_inv e p :
  path_of e = Some p -> exists d, e = PDict d /\ assoc "path" d = Some (PStr p).
Proof.
  destruct e as [| | | | |d]; try discriminate. simpl.
  destruct (assoc "path" d) as [[| | |s| |]|] eqn:E; try discriminate.
  intros H. injection H as ->. now exists d.
Qed.

Lemma readme_scan_hit user_repo branch e p after w :
  path_of e = Some p -> is_readme p = true ->
  readme_scan user_repo branch (e :: after) w
  = (inr (PStr (raw_url user_repo branch (PStr p))), w).
Proof.
  intros Hp Hr. apply path_of_inv in Hp as (d & -> & Hd).
  cbn [readme_scan getitem]. rewrite Hd. unfold bind. cbn [ret py_lower].
  unfold is_readme in Hr. now rewrite Hr.
Qed.

Lemma readme_scan_skip user_repo branch before : forall rest w,
  forallb not_readme before = true ->
  readme_scan user_repo branch (before ++ rest)%list w
  = readme_scan user_repo branch rest w.
Proof.
  induction before as [|e es IH]; intros rest w H; [reflexivity|].
  cbn [forallb] in H. apply andb_true_iff in H as [He Hes].
  unfold not_readme in He. destruct (path_of e) as [p|] eqn:Hp; [|discriminate].
  apply path_of_inv in Hp as (d & -> & Hd). apply negb_true_iff in He.
  cbn [app readme_scan getitem]. rewrite Hd. unfold bind at 1 2.
  cbn [ret py_lower]. unfold is_readme in He. rewrite He. now apply IH.
Qed.

(** C6. [_readme_url] walks the [files] of the root listing in order.  The
    first entry whose lowercased path is in the list of readme names gives
    the result, the raw-content URL built from the path as it is spelt;
    when no entry qualifies the result is [None].  The list of names is
    the fixed one, and [README.MD] qualifies. *)
Theorem readme_first_match (user_repo branch : pyval) (prefer_cached : bool)
    (w : log) (root : list (string * pyval)) (entries : list pyval) :
  respond w (_make_api_url user_repo ("/src/" ++ fmt branch ++ "/"))
    prefer_cached = inr (PDict root) ->
  assoc "files" root = Some (PList entries) ->
  (forall before e p after,
     entries = (before ++ e :: after)%list ->
     forallb not_readme before = true ->
     path_of e = Some p -> is_readme p = true ->
     fst (_readme_url user_repo branch prefer_cached w)
     = inr (PStr ("https://bitbucket.org/" ++ fmt user_repo ++ "/raw/"
                    ++ fmt branch ++ "/" ++ p)))
  /\ (forallb not_readme entries = true ->
      fst (_readme_url user_repo branch prefer_cached w) = inr PNone)
  /\ _readme_filenames
     = [ "readme"; "readme.txt"; "readme.md"; "readme.mkd"; "readme.mdown";
         "readme.markdown"; "readme.textile"; "readme.creole"; "readme.rst" ]
  /\ is_readme "README.MD" = true.
Proof.
  intros Hr Hf.
  assert (E :
             _readme_url user_repo branch prefer_cached w
             = readme_scan user_repo branch entries
                 (w ++ [mkCall
                          (_make_api_url user_repo ("/src/" ++ fmt branch ++ "/"))
                          prefer_cached (inr (PDict root))])%list).
  { unfold _readme_url, bind, fetch_json. rewrite Hr.
    cbn [getitem]. now rewrite Hf. }
  repeat split.
  - intros before e p after -> Hb Hp Hy. rewrite E.
    rewrite readme_scan_skip by assumption.
    now rewrite (readme_scan_hit _ _ _ p).
  - intros Hn. rewrite E.
    rewrite <- (app_nil_r entries), readme_scan_skip by assumption.
    reflexivity.
Qed.

(** *** Taking a successful [repo_info] apart *)

Lemma fetch_inr url prefer_cached w v w' :
  fetch_json url prefer_cached w = (inr v, w') ->
  respond w url prefer_cached = inr v /\
  w' = (w ++ [mkCall url prefer_cached (inr v)])%list.
Proof.
  unfold fetch_json. intros H. injection H as H <-. now rewrite H.
Qed.

Lemma run_extends_to {A} (m : M A) w r w' :
  propagates respond m -> m w = (r, w') ->
  exists calls, w' = (w ++ calls)%list.
Proof.
  intros Hp E. destruct (run_extends m w Hp) as [calls Hc].
  rewrite E in Hc. now exists calls.
Qed.

Lemma repo_info_inv url w d w' :
  repo_info url w = (inr (PDict d), w') ->
  exists ur info name description website owner readme has_issues,
    user_repo_of url = Some ur /\
    fetched w w' (mkCall (_make_api_url (PStr ur) "") false (inr (PDict info))) /\
    assoc "name" info = Some name /\
    assoc "description" info = Some description /\
    assoc "website" info = Some website /\
    assoc "owner" info = Some owner /\
    assoc "has_issues" info = Some has_issues /\
    d = [ ("name", name);
          ("description", py_or description (PStr "No description provided"));
          ("homepage", py_or website (PStr url));
          ("author", owner);
          ("donate", PStr ("https://www.gittip.com/on/bitbucket/" ++ fmt owner ++ "/"));
          ("readme", readme);
          ("issues", if truthy has_issues
                     then PStr ("https://bitbucket.org/" ++ ur ++ "/issues")
                     else PNone) ].
Proof.
  unfold repo_info. intros H.
  apply bind_inr in H as ([user_repo branch] & w1 & Hu & H).
  destruct (run_extends_to _ _ _ _ (propagates_user_repo_branch url) Hu)
    as [calls1 ->].
  apply user_repo_branch_inv in Hu as [(-> & _)|(ur & -> & Hne & Hur)];
    [discriminate|].
  rewrite (truthy_nonempty ur Hne) in H. cbn [negb] in H. cbv zeta in H.
  apply bind_inr in H as (info & w2 & Hf & H).
  apply fetch_inr in Hf as [Hf ->].
  apply bind_inr in H as (name & w3 & Hname & H).
  apply getitem_inr in Hname as (di & -> & Hname & ->).
  apply bind_inr in H as (description & w3 & Hd & H).
  apply getitem_inr in Hd as (di' & E & Hd & ->). injection E as <-.
  apply bind_inr in H as (website & w3 & Hw & H).
  apply getitem_inr in Hw as (di' & E & Hw & ->). injection E as <-.
  apply bind_inr in H as (author & w3 & Ha & H).
  apply getitem_inr in Ha as (di' & E & Ha & ->). injection E as <-.
  apply bind_inr in H as (owner & w3 & Ho & H).
  apply getitem_inr in Ho as (di' & E & Ho & ->). injection E as <-.
  apply bind_inr in H as (readme & w3 & Hr & H).
  destruct (run_extends_to _ _ _ _
              (propagates_readme_url (PStr ur) branch false) Hr)
    as [calls2 ->].
  apply bind_inr in H as (has_issues & w4 & Hi & H).
  apply getitem_inr in Hi as (di' & E & Hi & ->). injection E as <-.
  injection H as <- <-.
  assert (author = owner) as -> by congruence.
  exists ur, di, name, description, website, owner, readme, has_issues.
  repeat split; auto.
  exists calls1, calls2. now rewrite <- !app_assoc.
Qed.


(** C8. In a dict returned by [repo_info], [description] is the fetched
    description, or "No description provided" when that is empty, and
    [homepage] is the fetched website, or the URL that was passed in when
    that is empty. *)
Theorem description_and_homepage (url : string) (w w' : log)
    (d : list (string * pyval)) :
  repo_info url w = (inr (PDict d), w') ->
  exists ur info description website,
    user_repo_of url = Some ur /\
    fetched w w' (mkCall (_make_api_url (PStr ur) "") false (inr (PDict info))) /\
    assoc "description" info = Some description /\
    assoc "website" info = Some website /\
    assoc "description" d
    = Some (if truthy description then description
            else PStr "No description provided") /\
    assoc "homepage" d
    = Some (if truthy website then website else PStr url) /\
    (description = PStr "" ->
     assoc "description" d = Some (PStr "No description provided")) /\
    (website = PStr "" -> assoc "homepage" d = Some (PStr url)).
Proof.
  intros H. apply repo_info_inv in H
    as (ur & info & name & description & website & owner & readme
        & has_issues & Hur & Hf & _ & Hd & Hw & _ & _ & ->).
  exists ur, info, description, website. repeat split; auto.
  - now intros ->.
  - now intros ->.
Qed.

(** *** Taking [_commit_info] and [download_info] apart *)

(** [_commit_info] returns [False], [None], or the four-key dict built
    from the resolved owner/repo and commit and the changeset it fetched
    last. *)
Lemma commit_info_inv url w ci w' :
  _commit_info url w = (inr ci, w') ->
  ci = PBool false \/ ci = PNone \/
  exists ur commit info ts date version calls,
    ((exists g tags tag rest,
        re_match tags_re url = Some g /\ ur = group 1 g /\
        fetched w w'
          (mkCall (_make_api_url (PStr ur) "/tags") false (inr (PDict tags))) /\
        version_sort
          (version_filter (map fst tags)
             (dict_get settings "install_prereleases")) true = tag :: rest /\
        commit = PStr tag)
     \/ (re_match tags_re url = None /\
         exists w1, _user_repo_branch url w = (inr (PStr ur, commit), w1))) /\
    w' = (w ++ calls ++
          [mkCall (_make_api_url (PStr ur) ("/changesets/" ++ fmt commit))
             false (inr (PDict info))])%list /\
    assoc "timestamp" info = Some ts /\
    slice ts 19 = Some date /\
    ci = PDict [ ("user_repo", PStr ur); ("timestamp", date);
                 ("commit", commit); ("version", version) ].
Proof.
  unfold _commit_info. intros H.
  apply bind_inr in H as (resolved & w1 & Hres & H).
  assert (Htail : forall ur commit version0,
    (let changeset_url :=
       _make_api_url (PStr ur) ("/changesets/" ++ fmt commit) in
     commit_info <- fetch_json changeset_url false ;;
     timestamp <- getitem commit_info "timestamp" ;;
     commit_date <- py_slice timestamp 19 ;;
     version <-
       (if negb (truthy version0)
        then py_re_sub date_sep_re "." commit_date
        else ret version0) ;;
     ret (PDict
       [ ("user_repo", PStr ur);
         ("timestamp", commit_date);
         ("commit", commit);
         ("version", version) ])) w1 = (inr ci, w') ->
    exists info ts date version,
      w' = (w1 ++
            [mkCall (_make_api_url (PStr ur) ("/changesets/" ++ fmt commit))
               false (inr (PDict info))])%list /\
      assoc "timestamp" info = Some ts /\
      slice ts 19 = Some date /\
      ci = PDict [ ("user_repo", PStr ur); ("timestamp", date);
                   ("commit", commit); ("version", version) ]).
  { intros ur commit version0 T. cbv zeta in T.
    apply bind_inr in T as (info & w2 & Hf & T).
    apply fetch_inr in Hf as [Hf ->].
    apply bind_inr in T as (ts & w3 & Hts & T).
    apply getitem_inr in Hts as (di & -> & Hts & ->).
    apply bind_inr in T as (date & w3 & Hsl & T).
    unfold py_slice in Hsl. destruct (slice ts 19) as [x|] eqn:Es;
      [|discriminate].
    injection Hsl as -> <-.
    apply bind_inr in T as (version & w3 & Hv & T).
    assert (w3 = (w1 ++
                  [mkCall (_make_api_url (PStr ur) ("/changesets/" ++ fmt commit))
                     false (inr (PDict di))])%list) as ->.
    { destruct (negb (truthy version0)).
      - unfold py_re_sub in Hv. destruct date; try discriminate.
        now injection Hv as _ <-.
      - now injection Hv as _ <-. }
    injection T as <- <-.
    now exists di, ts, date, version. }
  destruct (re_match tags_re url) as [g|] eqn:Em.
  - apply bind_inr in Hres as (tags_list & w2 & Hf & Hres).
    apply fetch_inr in Hf as [Hf ->].
    apply bind_inr in Hres as (keys & w3 & Hk & Hres).
    unfold py_keys in Hk. destruct tags_list as [| | | | |tags];
      try discriminate.
    injection Hk as <- <-.
    destruct (version_sort _ true) as [|tag rest] eqn:Es.
    + injection Hres as <- <-. injection H as <- _. now left.
    + injection Hres as <- <-.
      apply Htail in H as (info & ts & date & version & -> & Hts & Hsl & ->).
      right; right.
      exists (group 1 g), (PStr tag), info, ts, date, version,
        [mkCall (_make_api_url (PStr (group 1 g)) "/tags") false
           (inr (PDict tags))].
      repeat split; auto; [|now rewrite <- app_assoc].
      left. exists g, tags, tag, rest. repeat split; auto.
      exists [], [mkCall
                    (_make_api_url (PStr (group 1 g))
                       ("/changesets/" ++ fmt (PStr tag)))
                    false (inr (PDict info))].
      now rewrite <- app_assoc.
  - apply bind_inr in Hres as ([user_repo commit] & w2 & Hu & Hres).
    pose proof Hu as Hu'.
    destruct (run_extends_to _ _ _ _ (propagates_user_repo_branch url) Hu)
      as [calls1 ->].
    apply user_repo_branch_inv in Hu as [(-> & _)|(ur & -> & Hne & Hur)].
    + injection Hres as <- <-. injection H as <- _. right; now left.
    + rewrite (truthy_nonempty ur Hne) in Hres. injection Hres as <- <-.
      apply Htail in H as (info & ts & date & version & -> & Hts & Hsl & ->).
      right; right.
      exists ur, commit, info, ts, date, version, calls1.
      repeat split; auto; [|now rewrite <- app_assoc].
      right. split; eauto.
Qed.

(** C9. In a dict returned by [download_info], [url] is
    [https://bitbucket.org/{user_repo}/get/{commit}.zip] for the resolved
    owner/repo and the resolved tag or branch, and [date] is the
    timestamp of the changeset fetched for it, cut to its first 19
    characters.  That fetch is the last call of the run. *)
Theorem download_url_and_date (url : string) (w w' : log)
    (d : list (string * pyval)) :
  download_info url w = (inr (PDict d), w') ->
  exists ur commit info ts date calls,
    ((exists g tags tag rest,
        re_match tags_re url = Some g /\ ur = group 1 g /\
        fetched w w'
          (mkCall (_make_api_url (PStr ur) "/tags") false (inr (PDict tags))) /\
        version_sort
          (version_filter (map fst tags)
             (dict_get settings "install_prereleases")) true = tag :: rest /\
        commit = PStr tag)
     \/ (re_match tags_re url = None /\
         exists w1, _user_repo_branch url w = (inr (PStr ur, commit), w1))) /\
    w' = (w ++ calls ++
          [mkCall (_make_api_url (PStr ur) ("/changesets/" ++ fmt commit))
             false (inr (PDict info))])%list /\
    assoc "timestamp" info = Some ts /\
    slice ts 19 = Some date /\
    (forall s, ts = PStr s -> date = PStr (take 19 s)) /\
    assoc "url" d
    = Some (PStr ("https://bitbucket.org/" ++ ur ++ "/get/" ++ fmt commit
                    ++ ".zip")) /\
    assoc "date" d = Some date.
Proof.
  unfold download_info. intros H.
  apply bind_inr in H as (ci & w1 & Hci & H).
  apply commit_info_inv in Hci
    as [-> | [-> | (ur & commit & info & ts & date & version & calls
                    & Hres & Hw & Hts & Hsl & ->)]];
    try discriminate.
  cbn in H. injection H as <- <-.
  exists ur, commit, info, ts, date, calls. repeat split; auto.
  intros s ->. simpl in Hsl. congruence.
Qed.

(** On a [#tags] URL with at least one eligible tag, the first tag of the
    sorted list names the changeset to fetch and gives the version. *)
Lemma download_info_tag url g w tags tag rest info ts date :
  re_match tags_re url = Some g ->
  respond w (_make_api_url (PStr (group 1 g)) "/tags") false
    = inr (PDict tags) ->
  version_sort
    (version_filter (map fst tags) (dict_get settings "install_prereleases"))
    true = tag :: rest ->
  strip_v tag <> "" ->
  respond
    (w ++ [mkCall (_make_api_url (PStr (group 1 g)) "/tags") false
             (inr (PDict tags))])%list
    (_make_api_url (PStr (group 1 g)) ("/changesets/" ++ tag)) false
    = inr (PDict info) ->
  assoc "timestamp" info = Some ts ->
  slice ts 19 = Some date ->
  fst (download_info url w)
  = inr (PDict
      [ ("version", PStr (strip_v tag));
        ("url", PStr ("https://bitbucket.org/" ++ group 1 g ++ "/get/"
                        ++ tag ++ ".zip"));
        ("date", date) ]).
Proof.
  intros Hm Hr Hs Hv Hc Hts Hsl.
  unfold download_info, _commit_info. rewrite Hm.
  unfold bind, fetch_json. rewrite Hr. cbn [py_keys ret].
  rewrite Hs. cbn [ret fmt]. rewrite Hc. cbn [getitem]. rewrite Hts.
  cbn [ret]. unfold py_slice. rewrite Hsl. cbn [ret].
  rewrite re_sub_leading_v, (truthy_nonempty _ Hv). reflexivity.
Qed.

(* ================================================================= *)
(** ** What the patterns accept *)

Lemma append_assoc (a b c : string) : (a ++ b) ++ c = a ++ (b ++ c).
Proof. induction a as [|x a IH]; cbn [append]; [reflexivity | now rewrite IH]. Qed.

Lemma chr_inv c i s g k res :
  rmatch (RChr c) i s g k = Some res ->
  exists a s', s = String a s' /\ cset_mem c a = true /\ k (S i) s' g = Some res.
Proof.
  cbn [rmatch]. destruct s as [|a s']; [discriminate|].
  destruct (cset_mem c a) eqn:E; [|discriminate]. eauto.
Qed.

Lemma opt_inv c i s g k res :
  rmatch (ROpt c) i s g k = Some res ->
  (exists a s', s = String a s' /\ cset_mem c a = true
                /\ k (S i) s' g = Some res)
  \/ k i s g = Some res.
Proof.
  cbn [rmatch]. destruct s as [|a s']; [now right|].
  destruct (cset_mem c a) eqn:E; [|now right].
  destruct (k (S i) s' g) as [r|] eqn:K; [|now right].
  intros H. injection H as <-. left. eauto.
Qed.

Lemma end_inv i s g k res :
  rmatch REnd i s g k = Some res -> at_end s /\ k i s g = Some res.
Proof.
  cbn [rmatch]. unfold at_end, nl. destruct s as [|a [|b s']].
  - auto.
  - destruct (Ascii.eqb_spec a newline) as [->|]; [auto | discriminate].
  - discriminate.
Qed.

Lemma lit_inv l : forall r i s g k res,
  rmatch (lit_then l r) i s g k = Some res ->
  exists s', s = l ++ s' /\ rmatch r (i + String.length l) s' g k = Some res.
Proof.
  induction l as [|c l IH]; intros r i s g k res H; cbn [lit_then] in H.
  - exists s. now rewrite Nat.add_0_r.
  - rewrite rmatch_seq in H.
    apply chr_inv in H as (a & s' & -> & Ha & H). cbn [cset_mem] in Ha.
    apply Ascii.eqb_eq in Ha as ->.
    apply IH in H as (s'' & -> & H). exists s''. split; [reflexivity|].
    cbn [String.length]. now rewrite Nat.add_succ_r.
Qed.

Lemma star_chars c s : forall i g k res,
  star c i s g k = Some res ->
  exists u rest,
    s = u ++ rest /\ all_chars (cset_mem c) u = true /\
    k (i + String.length u) rest g = Some res.
Proof.
  induction s as [|a s IH]; intros i g k res H; cbn [star] in H.
  - exists "", "". rewrite Nat.add_0_r. auto.
  - destruct (cset_mem c a) eqn:Ea.
    + destruct (star c (S i) s g k) as [r'|] eqn:E.
      * injection H as ->. apply IH in E as (u & rest & -> & Hu & Hk).
        exists (String a u), rest. cbn [append all_chars String.length].
        rewrite Ea, Hu, Nat.add_succ_r. auto.
      * exists "", (String a s). rewrite Nat.add_0_r. auto.
    + exists "", (String a s). rewrite Nat.add_0_r. auto.
Qed.

Lemma plus_inv c i s g k res :
  rmatch (RPlus c) i s g k = Some res ->
  exists u rest,
    s = u ++ rest /\ u <> "" /\ all_chars (cset_mem c) u = true /\
    k (i + String.length u) rest g = Some res.
Proof.
  cbn [rmatch]. destruct s as [|a s]; [discriminate|].
  destruct (cset_mem c a) eqn:Ea; [|discriminate].
  intros H. apply star_chars in H as (u & rest & -> & Hu & Hk).
  exists (String a u), rest. cbn [append all_chars String.length].
  rewrite Ea, Hu, Nat.add_succ_r. repeat split; auto. discriminate.
Qed.

(** [([^/]+/C+)] from offset [i]: two non-empty runs around a slash, and
    the group holds exactly them. *)
Lemma user_repo_group_inv c2 i s g k res :
  rmatch (RGroup (RSeq (RPlus not_slash)
                    (RSeq (RChr (CChar "/"%char)) (RPlus c2)))) i s g k
    = Some res ->
  exists u r rest,
    s = u ++ "/" ++ r ++ rest /\ segment u /\
    r <> "" /\ all_chars (cset_mem c2) r = true /\
    k (i + String.length (u ++ "/" ++ r)) rest
      (g ++ [(u ++ "/" ++ r)%string])%list
      = Some res.
Proof.
  rewrite rmatch_group, rmatch_seq. intros H.
  apply plus_inv in H as (u & rest1 & -> & Hu & Au & H).
  rewrite rmatch_seq in H. apply chr_inv in H as (a & rest2 & -> & Ha & H).
  cbn [cset_mem] in Ha. apply Ascii.eqb_eq in Ha as ->.
  apply plus_inv in H as (r & rest & -> & Hr & Ar & H).
  exists u, r, rest. repeat split; auto.
  assert (El : S (i + String.length u) + String.length r - i
               = String.length (u ++ "/" ++ r)).
  { rewrite app_length. cbn [append String.length]. lia. }
  rewrite El in H.
  assert (Et : take (String.length (u ++ "/" ++ r))
                 (u ++ String "/" (r ++ rest)) = u ++ "/" ++ r).
  { replace (u ++ String "/" (r ++ rest)) with ((u ++ "/" ++ r) ++ rest).
    - apply take_app.
    - now rewrite !append_assoc. }
  rewrite Et in H. rewrite <- H. f_equal.
  rewrite app_length. cbn [append String.length]. rewrite app_length in El.
  cbn [append String.length] in El. lia.
Qed.

Lemma host_prefix_inv r s g k res :
  rmatch (host_prefix r) 0 s g k = Some res ->
  exists scheme dot path,
    s = host_url scheme dot path /\ is_scheme scheme /\ dot <> newline /\
    rmatch r (String.length scheme + 17) path g k = Some res.
Proof.
  unfold host_prefix. intros H.
  apply lit_inv in H as (s1 & -> & H). rewrite rmatch_seq in H.
  assert (Hrest : forall i s2,
    rmatch (lit_then "://bitbucket" (RSeq (RChr CDot) (lit_then "org/" r)))
      i s2 g k = Some res ->
    exists dot path,
      s2 = "://bitbucket" ++ String dot ("org/" ++ path) /\ dot <> newline /\
      rmatch r (i + 17) path g k = Some res).
  { intros i s2 H2. apply lit_inv in H2 as (s3 & -> & H2).
    rewrite rmatch_seq in H2.
    apply chr_inv in H2 as (dot & s4 & -> & Hd & H2).
    apply lit_inv in H2 as (path & -> & H2).
    exists dot, path. repeat split.
    - cbn [cset_mem] in Hd. apply negb_true_iff in Hd.
      now apply Ascii.eqb_neq in Hd.
    - rewrite <- H2. f_equal. cbn [String.length]. lia. }
  apply opt_inv in H as [(a & s2 & -> & Ha & H)|H].
  - cbn [cset_mem] in Ha. apply Ascii.eqb_eq in Ha as ->.
    apply Hrest in H as (dot & path & -> & Hd & H).
    exists "https", dot, path. repeat split; auto. now right.
  - apply Hrest in H as (dot & path & -> & Hd & H).
    exists "http", dot, path. repeat split; auto. now left.
Qed.

Lemma re_match_inv r s g :
  re_match r s = Some g -> exists i, rmatch r 0 s [] finish = Some (i, g).
Proof.
  unfold re_match, finish.
  destruct (rmatch r 0 s [] (fun i _ g0 => Some (i, g0))) as [[i g']|];
    [|discriminate].
  intros H. injection H as ->. now exists i.
Qed.

Lemma slash_end_inv i s g k res :
  rmatch (RSeq (ROpt (CChar "/"%char)) REnd) i s g k = Some res ->
  slash_end s.
Proof.
  rewrite rmatch_seq. intros H. unfold slash_end.
  apply opt_inv in H as [(a & s' & -> & Ha & H)|H].
  - cbn [cset_mem] in Ha. apply Ascii.eqb_eq in Ha as ->.
    apply end_inv in H as [[->| ->] _]; auto.
  - apply end_inv in H as [[->| ->] _]; auto.
Qed.

(** Every URL the repo-root pattern accepts, and the group it yields. *)
Lemma repo_re_shape url g :
  re_match repo_re url = Some g ->
  exists scheme dot u r tail,
    url = host_url scheme dot (u ++ "/" ++ r ++ tail) /\
    is_scheme scheme /\ dot <> newline /\
    segment u /\ segment r /\ slash_end tail /\
    g = [u ++ "/" ++ r].
Proof.
  intros H. apply re_match_inv in H as [i H]. unfold repo_re in H.
  apply host_prefix_inv in H as (scheme & dot & path & -> & Hs & Hd & H).
  rewrite rmatch_seq in H.
  apply user_repo_group_inv in H as (u & r & tail & -> & Hu & Hr & Ar & H).
  pose proof (slash_end_inv _ _ _ _ _ H) as Ht.
  rewrite rmatch_seq in H.
  assert (G : g = [u ++ "/" ++ r]).
  { apply opt_inv in H as [(a & s' & _ & _ & H)|H];
      apply end_inv in H as [_ H]; unfold finish in H; now injection H as _ <-. }
  exists scheme, dot, u, r, tail. repeat split; auto; apply Hu.
Qed.

(** Every URL the branch pattern accepts, and its two groups. *)
Lemma branch_re_shape url g :
  re_match branch_re url = Some g ->
  exists scheme dot u r b tail,
    url = host_url scheme dot (u ++ "/" ++ r ++ "/src/" ++ b ++ tail) /\
    is_scheme scheme /\ dot <> newline /\
    segment u /\ segment r /\ segment b /\ slash_end tail /\
    g = [u ++ "/" ++ r; b].
Proof.
  intros H. apply re_match_inv in H as [i H]. unfold branch_re in H.
  apply host_prefix_inv in H as (scheme & dot & path & -> & Hs & Hd & H).
  rewrite rmatch_seq in H.
  apply user_repo_group_inv in H as (u & r & rest & -> & Hu & Hr & Ar & H).
  apply lit_inv in H as (rest2 & -> & H).
  rewrite rmatch_seq, rmatch_group in H.
  apply plus_inv in H as (b & tail & -> & Hb & Ab & H).
  pose proof (slash_end_inv _ _ _ _ _ H) as Ht.
  rewrite rmatch_seq in H.
  match type of H with
  | context [take ?n (b ++ tail)] =>
      replace n with (String.length b) in H by lia
  end.
  rewrite take_app in H.
  assert (G : g = [u ++ "/" ++ r; b]).
  { apply opt_inv in H as [(a & s' & _ & _ & H)|H];
      apply end_inv in H as [_ H]; unfold finish in H; now injection H as _ <-. }
  exists scheme, dot, u, r, b, tail. repeat split; auto; apply Hu.
Qed.

(** Every URL the [#tags] pattern accepts, and the group it yields. *)
Lemma tags_re_shape url g :
  re_match tags_re url = Some g ->
  exists scheme dot u r sl e,
    url = host_url scheme dot (u ++ "/" ++ r ++ sl ++ "#tags" ++ e) /\
    is_scheme scheme /\ dot <> newline /\
    segment u /\ plain_segment r /\ (sl = "" \/ sl = "/") /\ at_end e /\
    g = [u ++ "/" ++ r].
Proof.
  intros H. apply re_match_inv in H as [i H]. unfold tags_re in H.
  apply host_prefix_inv in H as (scheme & dot & path & -> & Hs & Hd & H).
  rewrite rmatch_seq in H.
  apply user_repo_group_inv in H as (u & r & rest & -> & Hu & Hr & Ar & H).
  rewrite rmatch_seq in H.
  apply opt_inv in H as [(a & s' & -> & Ha & H)|H].
  - cbn [cset_mem] in Ha. apply Ascii.eqb_eq in Ha as ->.
    apply lit_inv in H as (e & -> & H). apply end_inv in H as [He H].
    unfold finish in H. injection H as _ <-.
    exists scheme, dot, u, r, "/", e. repeat split; auto; apply Hu.
  - apply lit_inv in H as (e & -> & H). apply end_inv in H as [He H].
    unfold finish in H. injection H as _ <-.
    exists scheme, dot, u, r, "", e. repeat split; auto; apply Hu.
Qed.

(** *** URLs the patterns are sure to accept *)

Lemma rmatch_lit l : forall r i s g k,
  rmatch (lit_then l r) i (l ++ s) g k
  = rmatch r (i + String.length l) s g k.
Proof.
  induction l as [|c l IH]; intros r i s g k; cbn [lit_then append].
  - now rewrite Nat.add_0_r.
  - rewrite rmatch_seq. cbn [rmatch cset_mem]. rewrite Ascii.eqb_refl, IH.
    cbn [String.length]. now rewrite Nat.add_succ_r.
Qed.

Lemma host_prefix_run r scheme dot path g k :
  is_scheme scheme -> dot <> newline ->
  rmatch (host_prefix r) 0 (host_url scheme dot path) g k
  = rmatch r (String.length scheme + 17) path g k.
Proof.
  intros Hs Hd.
  assert (Hrest : forall i,
    rmatch (lit_then "://bitbucket" (RSeq (RChr CDot) (lit_then "org/" r)))
      i ("://bitbucket" ++ String dot ("org/" ++ path)) g k
    = rmatch r (i + 17) path g k).
  { intros i. rewrite rmatch_lit, rmatch_seq. cbn [rmatch cset_mem].
    apply Ascii.eqb_neq in Hd. rewrite Hd. cbn [negb].
    rewrite rmatch_lit. f_equal. cbn [String.length]. lia. }
  unfold host_prefix, host_url. destruct Hs as [-> | ->].
  - change ("http" ++ "://bitbucket" ++ String dot ("org/" ++ path))
      with ("http" ++ ("://bitbucket" ++ String dot ("org/" ++ path))).
    rewrite rmatch_lit, rmatch_seq. cbn [rmatch append cset_mem].
    change (":" =? "s")%char with false. cbv iota.
    apply (Hrest 4).
  - change ("https" ++ "://bitbucket" ++ String dot ("org/" ++ path))
      with ("http" ++ String "s" ("://bitbucket" ++ String dot ("org/" ++ path))).
    rewrite rmatch_lit, rmatch_seq. cbn [rmatch cset_mem].
    rewrite Ascii.eqb_refl.
    change (0 + String.length "http") with 4.
    change (String.length "https" + 17) with (5 + 17).
    rewrite (Hrest 5).
    destruct (rmatch r (5 + 17) path g k); reflexivity.
Qed.

Lemma stops_slash c rest :
  cset_mem c "/"%char = false -> stops c ("/" ++ rest) = true.
Proof. intros H. cbn [append stops]. now rewrite H. Qed.

(** [([^/]+/C+)] run over [u/r] when what follows cannot extend [r]. *)
Lemma user_repo_group_run c2 i u r rest g k res :
  segment u -> r <> "" -> all_chars (cset_mem c2) r = true ->
  stops c2 rest = true ->
  k (i + String.length (u ++ "/" ++ r)) rest
    (g ++ [(u ++ "/" ++ r)%string])%list = Some res ->
  rmatch (RGroup (RSeq (RPlus not_slash)
                    (RSeq (RChr (CChar "/"%char)) (RPlus c2))))
    i (u ++ "/" ++ r ++ rest) g k = Some res.
Proof.
  intros [Hu Au] Hr Ar Hst Hk.
  rewrite rmatch_group, rmatch_seq.
  apply plus_run; auto.
  rewrite rmatch_seq. cbn [append rmatch cset_mem]. rewrite Ascii.eqb_refl.
  apply plus_run; auto.
  assert (El : S (i + String.length u) + String.length r - i
               = String.length (u ++ "/" ++ r)).
  { rewrite app_length. cbn [append String.length]. lia. }
  rewrite El.
  replace (u ++ String "/" (r ++ rest)) with ((u ++ "/" ++ r) ++ rest)
    by now rewrite !append_assoc.
  rewrite take_app. rewrite <- Hk. f_equal.
  rewrite app_length. cbn [append String.length]. lia.
Qed.

Lemma slash_end_run i tail g :
  tail = "" \/ tail = "/" ->
  exists j, rmatch (RSeq (ROpt (CChar "/"%char)) REnd) i tail g finish
            = Some (j, g).
Proof.
  intros [-> | ->]; rewrite rmatch_seq; cbn; eexists; reflexivity.
Qed.

Lemma stops_tail c tail :
  cset_mem c "/"%char = false -> tail = "" \/ tail = "/" ->
  stops c tail = true.
Proof. intros H [-> | ->]; cbn; [reflexivity | now rewrite H]. Qed.

Lemma re_match_finish r s i g :
  rmatch r 0 s [] finish = Some (i, g) -> re_match r s = Some g.
Proof. unfold re_match, finish. now intros ->. Qed.

Lemma repo_re_accepts scheme dot u r tail :
  is_scheme scheme -> dot <> newline -> segment u -> segment r ->
  tail = "" \/ tail = "/" ->
  re_match repo_re (host_url scheme dot (u ++ "/" ++ r ++ tail))
  = Some [u ++ "/" ++ r].
Proof.
  intros Hs Hd Hu [Hr Ar] Ht.
  destruct (slash_end_run
              (String.length scheme + 17 + String.length (u ++ "/" ++ r))
              tail [(u ++ "/" ++ r)%string] Ht) as [j Hj].
  apply (re_match_finish _ _ j). unfold repo_re.
  rewrite host_prefix_run by assumption. rewrite rmatch_seq.
  apply user_repo_group_run; auto.
  now apply stops_tail.
Qed.

Lemma branch_re_accepts scheme dot u r b tail :
  is_scheme scheme -> dot <> newline -> segment u -> segment r ->
  segment b -> tail = "" \/ tail = "/" ->
  re_match branch_re
    (host_url scheme dot (u ++ "/" ++ r ++ "/src/" ++ b ++ tail))
  = Some [u ++ "/" ++ r; b].
Proof.
  intros Hs Hd Hu [Hr Ar] [Hb Ab] Ht.
  destruct (slash_end_run
              (String.length scheme + 17 + String.length (u ++ "/" ++ r)
               + String.length "/src/" + String.length b)
              tail [(u ++ "/" ++ r)%string; b] Ht) as [j Hj].
  apply (re_match_finish _ _ j). unfold branch_re.
  rewrite host_prefix_run by assumption. rewrite rmatch_seq.
  apply user_repo_group_run; auto.
  rewrite rmatch_lit, rmatch_seq, rmatch_group.
  apply plus_run; auto.
  - now apply stops_tail.
  - match goal with
    | |- context [take ?n (b ++ tail)] =>
        replace n with (String.length b) by lia
    end.
    rewrite take_app. exact Hj.
Qed.

Lemma tags_re_accepts scheme dot u r sl :
  is_scheme scheme -> dot <> newline -> segment u -> plain_segment r ->
  sl = "" \/ sl = "/" ->
  re_match tags_re (host_url scheme dot (u ++ "/" ++ r ++ sl ++ "#tags"))
  = Some [u ++ "/" ++ r].
Proof.
  intros Hs Hd Hu [Hr Ar] Hsl.
  assert (exists j,
    rmatch (RSeq (ROpt (CChar "/"%char)) (lit_then "#tags" REnd))
      (String.length scheme + 17 + String.length (u ++ "/" ++ r))
      (sl ++ "#tags") [(u ++ "/" ++ r)%string] finish
    = Some (j, [(u ++ "/" ++ r)%string])) as [j Hj].
  { destruct Hsl as [-> | ->]; rewrite rmatch_seq; cbn; eexists;
      reflexivity. }
  apply (re_match_finish _ _ j). unfold tags_re.
  rewrite host_prefix_run by assumption. rewrite rmatch_seq.
  apply user_repo_group_run; auto.
  destruct Hsl as [-> | ->]; reflexivity.
Qed.

(** *** URLs the repo-root pattern is sure to reject *)

Lemma host_url_inj s d p s' d' p' :
  is_scheme s -> is_scheme s' ->
  host_url s d p = host_url s' d' p' -> s = s' /\ d = d' /\ p = p'.
Proof.
  unfold host_url. intros [-> | ->] [-> | ->] H; cbn in H;
    try discriminate; injection H as -> ->; auto.
Qed.

Lemma first_slash_unique a : forall b x y,
  all_chars (cset_mem not_slash) a = true ->
  all_chars (cset_mem not_slash) b = true ->
  a ++ String "/" x = b ++ String "/" y -> a = b /\ x = y.
Proof.
  induction a as [|c a IH]; intros [|d b] x y Ha Hb H; cbn [append] in H.
  - injection H as ->. auto.
  - injection H as <- _. cbn in Hb. discriminate.
  - injection H as -> _. cbn in Ha. discriminate.
  - injection H as -> H. cbn [all_chars] in Ha, Hb.
    apply andb_true_iff in Ha as [_ Ha]. apply andb_true_iff in Hb as [_ Hb].
    destruct (IH b x y Ha Hb H) as [-> ->]. auto.
Qed.

Lemma slash_inside a x :
  all_chars (cset_mem not_slash) (a ++ String "/" x) = false.
Proof.
  induction a as [|c a IH]; cbn [append all_chars]; [reflexivity|].
  rewrite IH. apply andb_false_r.
Qed.

Lemma repo_re_rejects_deeper scheme dot u r more :
  is_scheme scheme -> segment u -> segment r -> more <> "" -> more <> nl ->
  re_match repo_re (host_url scheme dot (u ++ "/" ++ r ++ "/" ++ more))
  = None.
Proof.
  intros Hs [Hu Au] [Hr Ar] Hm Hn.
  destruct (re_match repo_re _) as [g|] eqn:E; [exfalso | reflexivity].
  apply repo_re_shape in E
    as (s' & d' & u' & r' & tail & E & Hs' & _ & [_ Au'] & [_ Ar'] & Ht & _).
  apply host_url_inj in E as (_ & _ & E); auto.
  cbn [append] in E.
  apply first_slash_unique in E as [<- E]; auto.
  destruct Ht as [-> | [-> | [-> | ->]]].
  - rewrite append_empty_r in E. subst r'. now rewrite slash_inside in Ar'.
  - cbn [append] in E. apply first_slash_unique in E as [_ E]; auto.
  - assert (A : all_chars (cset_mem not_slash) (r' ++ nl) = true).
    { rewrite all_chars_app, Ar'. reflexivity. }
    rewrite <- E in A. now rewrite slash_inside in A.
  - cbn [append] in E. apply first_slash_unique in E as [_ E]; auto.
Qed.

(* ================================================================= *)
(** ** How many fetches, and where to *)

Lemma makes_pure {A} P (m : M A) :
  (forall w, snd (m w) = w) -> makes P 0 m.
Proof.
  intros H w. exists []. rewrite H, app_nil_r. repeat split; auto.
Qed.

Lemma makes_le {A} P n n' (m : M A) : makes P n m -> n <= n' -> makes P n' m.
Proof.
  intros H Hle w. destruct (H w) as (calls & E & F & L).
  exists calls. repeat split; auto. lia.
Qed.

Lemma makes_bind {A B} P n1 n2 (m : M A) (f : A -> M B) :
  makes P n1 m -> (forall a, makes P n2 (f a)) -> makes P (n1 + n2) (bind m f).
Proof.
  intros Hm Hf w. unfold bind. destruct (Hm w) as (c1 & E1 & F1 & L1).
  destruct (m w) as [[e|a] w1]; simpl in E1; subst w1.
  - exists c1. repeat split; auto. lia.
  - destruct (Hf a (w ++ c1)%list) as (c2 & E2 & F2 & L2).
    exists (c1 ++ c2)%list. rewrite E2, app_assoc. repeat split.
    + now apply Forall_app.
    + rewrite length_app. lia.
Qed.

Lemma makes_fetch P url prefer_cached :
  (forall r, P (mkCall url prefer_cached r)) ->
  makes P 1 (fetch_json url prefer_cached).
Proof.
  intros H w. unfold fetch_json.
  exists [mkCall url prefer_cached (respond w url prefer_cached)].
  repeat split; auto.
Qed.

Lemma makes_getitem P v k : makes P 0 (getitem v k).
Proof.
  apply makes_pure. intros w. unfold getitem.
  destruct v; try reflexivity. now destruct (assoc k d).
Qed.

Lemma api_call_uncached user_repo suffix r :
  api_call (mkCall (_make_api_url user_repo suffix) false r).
Proof.
  exists (fmt user_repo ++ suffix). split; [reflexivity | discriminate].
Qed.

Lemma api_call_main_branch user_repo b r :
  api_call (mkCall (_make_api_url user_repo "/main-branch") b r).
Proof.
  exists (fmt user_repo ++ "/main-branch"). split; [reflexivity | eauto].
Qed.

Lemma makes_main_branch_name user_repo :
  makes api_call 1 (_main_branch_name user_repo).
Proof.
  unfold _main_branch_name. apply (makes_bind api_call 1 0).
  - apply makes_fetch. intros r. apply api_call_main_branch.
  - intros v. apply makes_getitem.
Qed.

Lemma makes_user_repo_branch url : makes api_call 1 (_user_repo_branch url).
Proof.
  unfold _user_repo_branch. destruct (re_match repo_re url).
  - apply (makes_bind api_call 1 0); [apply makes_main_branch_name|].
    intros b. now apply makes_pure.
  - apply (makes_le api_call 0); [|lia].
    destruct (re_match branch_re url); now apply makes_pure.
Qed.

Lemma makes_readme_scan user_repo branch entries :
  makes api_call 0 (readme_scan user_repo branch entries).
Proof.
  apply makes_pure. induction entries as [|e es IH]; intros w;
    cbn [readme_scan]; [reflexivity|].
  unfold bind, getitem, py_lower.
  destruct e as [| | | | |d]; try reflexivity.
  destruct (assoc "path" d) as [[| | |s| |]|]; try reflexivity.
  cbn [ret]. destruct (str_in (lower s) _readme_filenames);
    [reflexivity | apply IH].
Qed.

Lemma makes_readme_url user_repo branch :
  makes api_call 1 (_readme_url user_repo branch false).
Proof.
  unfold _readme_url. apply (makes_bind api_call 1 0).
  - apply makes_fetch. intros r. apply api_call_uncached.
  - intros root. apply (makes_bind api_call 0 0); [apply makes_getitem|].
    intros files. apply (makes_bind api_call 0 0).
    + apply makes_pure. intros w. now destruct files.
    + intros entries. apply makes_readme_scan.
Qed.

Lemma makes_repo_info url : makes api_call 3 (repo_info url).
Proof.
  unfold repo_info.
  apply (makes_bind api_call 1 2); [apply makes_user_repo_branch|].
  intros [user_repo branch]. destruct (negb (truthy user_repo)).
  - apply (makes_le api_call 0); [now apply makes_pure | lia].
  - cbv zeta. apply (makes_bind api_call 1 1).
    + apply makes_fetch. intros r. apply api_call_uncached.
    + intros info.
      do 5 (apply (makes_bind api_call 0 1); [apply makes_getitem | intros ?]).
      apply (makes_bind api_call 1 0); [apply makes_readme_url|].
      intros readme. apply (makes_bind api_call 0 0); [apply makes_getitem|].
      intros has_issues. now apply makes_pure.
Qed.

Lemma makes_commit_info url : makes api_call 2 (_commit_info url).
Proof.
  unfold _commit_info. apply (makes_bind api_call 1 1).
  - destruct (re_match tags_re url).
    + apply (makes_bind api_call 1 0).
      * apply makes_fetch. intros r. apply api_call_uncached.
      * intros tags_list. apply (makes_bind api_call 0 0).
        -- apply makes_pure. intros w. now destruct tags_list.
        -- intros keys. apply makes_pure. intros w.
           now destruct (version_sort _ true).
    + apply (makes_bind api_call 1 0); [apply makes_user_repo_branch|].
      intros [user_repo commit]. apply makes_pure. intros w.
      now destruct (negb (truthy user_repo)).
  - intros [v|[[user_repo commit] version]].
    + apply (makes_le api_call 0); [now apply makes_pure | lia].
    + cbv zeta. apply (makes_bind api_call 1 0).
      * apply makes_fetch. intros r. apply api_call_uncached.
      * intros info. apply (makes_bind api_call 0 0); [apply makes_getitem|].
        intros ts. apply (makes_bind api_call 0 0).
        -- apply makes_pure. intros w. unfold py_slice.
           now destruct (slice ts 19).
        -- intros date. apply (makes_bind api_call 0 0).
           ++ apply makes_pure. intros w.
              destruct (negb (truthy version)); [|reflexivity].
              now destruct date.
           ++ intros v. now apply makes_pure.
Qed.

(** X1. Whatever the URL and the answers, [download_info] makes at most
    two fetches and [repo_info] at most three; every fetch goes to a URL
    under [https://api.bitbucket.org/1.0/repositories/], and only a
    [/main-branch] request asks for a cached answer. *)
Theorem fetches_are_few_and_to_the_api (url : string) :
  makes api_call 2 (download_info url) /\ makes api_call 3 (repo_info url).
Proof.
  split; [|apply makes_repo_info].
  unfold download_info.
  apply (makes_bind api_call 2 0); [apply makes_commit_info|].
  intros ci. destruct (negb (truthy ci)); [now apply makes_pure|].
  do 4 (apply (makes_bind api_call 0 0); [apply makes_getitem | intros ?]).
  now apply makes_pure.
Qed.

(* ================================================================= *)
(** ** The URL shapes, seen from the operations *)

(** X2. The owner/repo that [_user_repo_branch] hands back is always read
    from right behind the host of the URL: two non-empty runs of
    characters other than [/], joined by one [/].  The URL starts with
    [http://bitbucket] or [https://bitbucket], one character that is not a
    line feed, and [org/]. *)
Theorem user_repo_has_two_segments (url : string) (w w1 : log)
    (ur : string) (branch : pyval) :
  _user_repo_branch url w = (inr (PStr ur, branch), w1) ->
  exists scheme dot user repo rest,
    url = host_url scheme dot (user ++ "/" ++ repo ++ rest) /\
    is_scheme scheme /\ dot <> newline /\
    segment user /\ segment repo /\
    ur = user ++ "/" ++ repo.
Proof.
  unfold _user_repo_branch.
  destruct (re_match repo_re url) as [g|] eqn:Er.
  - intros H. apply bind_inr in H as (b & w2 & _ & H). injection H as <- _ _.
    apply repo_re_shape in Er
      as (scheme & dot & u & r & tail & -> & Hs & Hd & Hu & Hr & _ & ->).
    exists scheme, dot, u, r, tail. repeat split; auto; apply Hu || apply Hr.
  - destruct (re_match branch_re url) as [g|] eqn:Eb; [|discriminate].
    intros H. injection H as <- _ _.
    apply branch_re_shape in Eb
      as (scheme & dot & u & r & b & tail & -> & Hs & Hd & Hu & Hr & _ & _ & ->).
    exists scheme, dot, u, r, ("/src/" ++ b ++ tail).
    repeat split; auto; apply Hu || apply Hr.
Qed.

(** X3. A branch URL, [.../user/repo/src/branch] with or without a final
    slash, is decomposed without any fetch: [_user_repo_branch] returns
    [user/repo] and the branch as written, and the log is unchanged. *)
Theorem branch_url_needs_no_fetch (scheme : string) (dot : ascii)
    (user repo branch tail : string) (w : log) :
  is_scheme scheme -> dot <> newline ->
  segment user -> segment repo -> segment branch ->
  tail = "" \/ tail = "/" ->
  _user_repo_branch
    (host_url scheme dot (user ++ "/" ++ repo ++ "/src/" ++ branch ++ tail)) w
  = (inr (PStr (user ++ "/" ++ repo), PStr branch), w).
Proof.
  intros Hs Hd Hu Hr Hb Ht. unfold _user_repo_branch.
  assert (Hno : re_match repo_re
                  (host_url scheme dot
                     (user ++ "/" ++ repo ++ "/src/" ++ branch ++ tail))
                = None).
  { apply (repo_re_rejects_deeper scheme dot user repo
             ("src/" ++ branch ++ tail)); auto; discriminate. }
  rewrite Hno, branch_re_accepts by assumption. reflexivity.
Qed.

(** X4. A repo-root URL, [.../user/repo] with or without a final slash,
    costs exactly one fetch: the main branch of [user/repo], cached answer
    allowed.  The branch is the [name] of the answer; an answer without
    [name] raises [KeyError], an answer that is no dict [TypeError], and a
    failed fetch its own exception. *)
Theorem root_url_asks_main_branch (scheme : string) (dot : ascii)
    (user repo tail : string) (w : log) :
  is_scheme scheme -> dot <> newline ->
  segment user -> segment repo ->
  tail = "" \/ tail = "/" ->
  _user_repo_branch (host_url scheme dot (user ++ "/" ++ repo ++ tail)) w
  = (branch_of_answer (user ++ "/" ++ repo)
       (respond w
          (_make_api_url (PStr (user ++ "/" ++ repo)) "/main-branch") true),
     (w ++
      [mkCall (_make_api_url (PStr (user ++ "/" ++ repo)) "/main-branch")
         true
         (respond w
            (_make_api_url (PStr (user ++ "/" ++ repo)) "/main-branch")
            true)])%list).
Proof.
  intros Hs Hd Hu Hr Ht. unfold _user_repo_branch.
  rewrite repo_re_accepts by assumption.
  cbn [group Nat.sub nth]. unfold _main_branch_name, bind, fetch_json.
  destruct (respond w _ true) as [e|v]; [reflexivity|].
  unfold getitem, branch_of_answer.
  destruct v as [| | | | |d]; try reflexivity.
  now destruct (assoc "name" d).
Qed.

(* ================================================================= *)
(** ** The three kinds of result *)

Lemma user_repo_of_none url :
  user_repo_of url = None ->
  re_match repo_re url = None /\ re_match branch_re url = None.
Proof.
  unfold user_repo_of. destruct (re_match repo_re url); [discriminate|].
  destruct (re_match branch_re url); [discriminate | auto].
Qed.

(** Past the resolution, [_commit_info] can only return its four-key
    dict. *)
Lemma commit_tail_dict user_repo commit version0 w1 ci w' :
  (let changeset_url :=
     _make_api_url user_repo ("/changesets/" ++ fmt commit) in
   commit_info <- fetch_json changeset_url false ;;
   timestamp <- getitem commit_info "timestamp" ;;
   commit_date <- py_slice timestamp 19 ;;
   version <-
     (if negb (truthy version0)
      then py_re_sub date_sep_re "." commit_date
      else ret version0) ;;
   ret (PDict
     [ ("user_repo", user_repo);
       ("timestamp", commit_date);
       ("commit", commit);
       ("version", version) ])) w1 = (inr ci, w') ->
  exists date version,
    ci = PDict [ ("user_repo", user_repo); ("timestamp", date);
                 ("commit", commit); ("version", version) ].
Proof.
  cbv zeta. intros T.
  apply bind_inr in T as (info & w2 & _ & T).
  apply bind_inr in T as (ts & w3 & _ & T).
  apply bind_inr in T as (date & w4 & _ & T).
  apply bind_inr in T as (version & w5 & _ & T).
  injection T as <- _. eauto.
Qed.

(** The three ways [_commit_info] can return. *)
Lemma commit_info_cases url w ci w' :
  _commit_info url w = (inr ci, w') ->
  (ci = PNone /\ re_match tags_re url = None /\
   re_match repo_re url = None /\ re_match branch_re url = None /\ w' = w)
  \/ (ci = PBool false /\
      exists g tags,
        re_match tags_re url = Some g /\
        respond w (_make_api_url (PStr (group 1 g)) "/tags") false
          = inr (PDict tags) /\
        version_sort
          (version_filter (map fst tags)
             (dict_get settings "install_prereleases")) true = [] /\
        w' = (w ++ [mkCall (_make_api_url (PStr (group 1 g)) "/tags") false
                      (inr (PDict tags))])%list)
  \/ (exists user_repo date commit version,
        ci = PDict [ ("user_repo", user_repo); ("timestamp", date);
                     ("commit", commit); ("version", version) ]).
Proof.
  unfold _commit_info. intros H.
  apply bind_inr in H as (resolved & w1 & Hres & H).
  destruct (re_match tags_re url) as [g|] eqn:Em.
  - apply bind_inr in Hres as (tags_list & w2 & Hf & Hres).
    apply fetch_inr in Hf as [Hf ->].
    apply bind_inr in Hres as (keys & w3 & Hk & Hres).
    unfold py_keys in Hk. destruct tags_list as [| | | | |tags];
      try discriminate.
    injection Hk as <- <-.
    destruct (version_sort _ true) as [|tag rest] eqn:Es.
    + injection Hres as <- <-. injection H as <- <-.
      right; left. split; [reflexivity|]. exists g, tags. auto.
    + injection Hres as <- <-.
      apply commit_tail_dict in H as (date & version & ->).
      right; right. eauto.
  - apply bind_inr in Hres as ([user_repo commit] & w2 & Hu & Hres).
    apply user_repo_branch_inv in Hu
      as [(-> & -> & -> & Hn)|(ur & -> & Hne & Hur)].
    + injection Hres as <- <-. injection H as <- <-.
      apply user_repo_of_none in Hn as [Hr Hb]. left. auto.
    + rewrite (truthy_nonempty ur Hne) in Hres. injection Hres as <- <-.
      apply commit_tail_dict in H as (date & version & ->).
      right; right. eauto.
Qed.

(** X5. [None] means that the URL was not recognised.  When
    [download_info] returns [None], none of the three patterns matched;
    when [repo_info] returns [None], neither the repo-root nor the branch
    pattern matched.  In both cases no fetch was made. *)
Theorem None_means_unmatched (url : string) (w w' : log) :
  (download_info url w = (inr PNone, w') ->
   re_match tags_re url = None /\ re_match repo_re url = None /\
   re_match branch_re url = None /\ w' = w)
  /\ (repo_info url w = (inr PNone, w') ->
      re_match repo_re url = None /\ re_match branch_re url = None /\ w' = w).
Proof.
  split.
  - unfold download_info. intros H.
    apply bind_inr in H as (ci & w1 & Hci & H).
    apply commit_info_cases in Hci
      as [(-> & Ht & Hr & Hb & ->)
         |[(-> & _)|(ur & date & commit & version & ->)]].
    + injection H as <-. auto.
    + discriminate.
    + discriminate.
  - unfold repo_info. intros H.
    apply bind_inr in H as ([user_repo branch] & w1 & Hu & H).
    apply user_repo_branch_inv in Hu
      as [(-> & -> & -> & Hn)|(ur & -> & Hne & Hur)].
    + injection H as <-. apply user_repo_of_none in Hn as [Hr Hb]. auto.
    + exfalso. rewrite (truthy_nonempty ur Hne) in H. cbn [negb] in H.
      cbv zeta in H.
      assert (N : never_none
        (info <- fetch_json (_make_api_url (PStr ur) "") false ;;
         name <- getitem info "name" ;;
         description <- getitem info "description" ;;
         website <- getitem info "website" ;;
         author <- getitem info "owner" ;;
         owner <- getitem info "owner" ;;
         readme <- _readme_url (PStr ur) branch false ;;
         has_issues <- getitem info "has_issues" ;;
         ret (PDict
           [ ("name", name);
             ("description", py_or description (PStr "No description provided"));
             ("homepage", py_or website (PStr url));
             ("author", author);
             ("donate", PStr ("https://www.gittip.com/on/bitbucket/" ++ fmt owner ++ "/"));
             ("readme", readme);
             ("issues", if truthy has_issues
                        then PStr ("https://bitbucket.org/" ++ fmt (PStr ur) ++ "/issues")
                        else PNone) ]))).
      { repeat (apply never_none_bind; intros ?). apply never_none_dict. }
      apply (N w1). now rewrite H.
Qed.

(** X6. [False] means a tags URL without an eligible tag.  When
    [download_info] returns [False], the URL matched the [#tags] pattern,
    the tags fetch answered a dict, the filtered and sorted list of its
    names was empty, and that fetch was the only one. *)
Theorem False_means_no_eligible_tag (url : string) (w w' : log) :
  download_info url w = (inr (PBool false), w') ->
  exists g tags,
    re_match tags_re url = Some g /\
    respond w (_make_api_url (PStr (group 1 g)) "/tags") false
      = inr (PDict tags) /\
    version_sort
      (version_filter (map fst tags)
         (dict_get settings "install_prereleases")) true = [] /\
    w' = (w ++ [mkCall (_make_api_url (PStr (group 1 g)) "/tags") false
                  (inr (PDict tags))])%list.
Proof.
  unfold download_info. intros H.
  apply bind_inr in H as (ci & w1 & Hci & H).
  apply commit_info_cases in Hci
    as [(-> & _)|[(-> & g & tags & Hm & Hr & Hs & ->)
                 |(ur & date & commit & version & ->)]].
  - discriminate.
  - injection H as <-. exists g, tags. auto.
  - discriminate.
Qed.

(** X7. [download_info] tries the [#tags] pattern first, so a URL
    [.../user/repo#tags] or [.../user/repo/#tags] whose repo name holds no
    [#] is a tags URL for it: the first fetch asks for the tags of
    [user/repo], no cached answer allowed, and the result is never
    [None]. *)
Theorem tags_url_fetches_tags_first (scheme : string) (dot : ascii)
    (user repo sl : string) (w : log) :
  is_scheme scheme -> dot <> newline ->
  segment user -> plain_segment repo ->
  sl = "" \/ sl = "/" ->
  fst (download_info
         (host_url scheme dot (user ++ "/" ++ repo ++ sl ++ "#tags")) w)
    <> inr PNone
  /\ exists later,
       snd (download_info
              (host_url scheme dot (user ++ "/" ++ repo ++ sl ++ "#tags")) w)
       = (w ++
          mkCall (_make_api_url (PStr (user ++ "/" ++ repo)) "/tags") false
            (respond w (_make_api_url (PStr (user ++ "/" ++ repo)) "/tags")
               false)
          :: later)%list.
Proof.
  intros Hs Hd Hu Hr Hsl.
  pose proof (tags_re_accepts scheme dot user repo sl Hs Hd Hu Hr Hsl) as Hm.
  split.
  - intros E.
    destruct (download_info
                (host_url scheme dot (user ++ "/" ++ repo ++ sl ++ "#tags")) w)
      as [r w'] eqn:Ed.
    simpl in E. subst r. unfold download_info in Ed.
    apply bind_inr in Ed as (ci & w1 & Hci & H).
    apply commit_info_cases in Hci
      as [(-> & Ht & _)|[(-> & _)|(ur & date & commit & version & ->)]];
      [congruence | discriminate | discriminate].
  - unfold download_info, _commit_info. rewrite Hm.
    cbn [group Nat.sub nth]. rewrite !bind_assoc. apply fetch_first.
    intros v. unfold py_keys, getitem, py_slice, py_re_sub.
    propagate_all.
Qed.

(* ================================================================= *)
(** ** More on [repo_info] *)

(** X8. A dict returned by [repo_info] has exactly the keys [name],
    [description], [homepage], [author], [donate], [readme], [issues], in
    this order; [name] and [author] are the fetched [name] and [owner],
    and [donate] is the gittip URL of the owner. *)
Theorem repo_info_keys_and_owner (url : string) (w w' : log)
    (d : list (string * pyval)) :
  repo_info url w = (inr (PDict d), w') ->
  exists ur info name owner,
    user_repo_of url = Some ur /\
    fetched w w' (mkCall (_make_api_url (PStr ur) "") false (inr (PDict info))) /\
    assoc "name" info = Some name /\
    assoc "owner" info = Some owner /\
    map fst d = [ "name"; "description"; "homepage"; "author"; "donate";
                  "readme"; "issues" ] /\
    assoc "name" d = Some name /\
    assoc "author" d = Some owner /\
    assoc "donate" d
    = Some (PStr ("https://www.gittip.com/on/bitbucket/" ++ fmt owner ++ "/")).
Proof.
  intros H. apply repo_info_inv in H
    as (ur & info & name & description & website & owner & readme
        & has_issues & Hur & Hf & Hn & _ & _ & Ho & _ & ->).
  exists ur, info, name, owner. repeat split; auto.
Qed.

Lemma readme_scan_keeps_log user_repo branch entries w :
  snd (readme_scan user_repo branch entries w) = w.
Proof.
  destruct (makes_readme_scan user_repo branch entries w)
    as (calls & E & _ & L).
  destruct calls; [|simpl in L; lia]. now rewrite app_nil_r in E.
Qed.

(** A successful [_readme_url] made one fetch, the listing, and it
    succeeded. *)
Lemma readme_url_inr user_repo branch prefer_cached w v w' :
  _readme_url user_repo branch prefer_cached w = (inr v, w') ->
  exists root,
    respond w (_make_api_url user_repo ("/src/" ++ fmt branch ++ "/"))
      prefer_cached = inr root /\
    w' = (w ++ [mkCall (_make_api_url user_repo ("/src/" ++ fmt branch ++ "/"))
                  prefer_cached (inr root)])%list.
Proof.
  unfold _readme_url. intros H.
  apply bind_inr in H as (root & w1 & Hf & H). apply fetch_inr in Hf as [Hf ->].
  apply bind_inr in H as (files & w2 & Hg & H).
  apply getitem_inr in Hg as (dr & -> & _ & ->).
  apply bind_inr in H as (entries & w3 & Hi & H).
  assert (w3 = (w ++ [mkCall (_make_api_url user_repo
                               ("/src/" ++ fmt branch ++ "/"))
                        prefer_cached (inr (PDict dr))])%list) as ->.
  { destruct files; try discriminate; now injection Hi as _ <-. }
  pose proof (readme_scan_keeps_log user_repo branch entries
                (w ++ [mkCall (_make_api_url user_repo
                                 ("/src/" ++ fmt branch ++ "/"))
                         prefer_cached (inr (PDict dr))])%list) as K.
  rewrite H in K. simpl in K. subst w'. eauto.
Qed.

(** What a successful [_user_repo_branch] read from the URL and added
    to the log. *)
Lemma user_repo_branch_run url w ur branch w1 :
  _user_repo_branch url w = (inr (PStr ur, branch), w1) ->
  (exists g mb,
     re_match repo_re url = Some g /\ ur = group 1 g /\
     w1 = (w ++ [mkCall (_make_api_url (PStr ur) "/main-branch") true
                   (inr (PDict mb))])%list /\
     assoc "name" mb = Some branch)
  \/ (re_match repo_re url = None /\
      exists g,
        re_match branch_re url = Some g /\ ur = group 1 g /\
        branch = PStr (group 2 g) /\ w1 = w).
Proof.
  unfold _user_repo_branch.
  destruct (re_match repo_re url) as [g|].
  - intros H. apply bind_inr in H as (b & w2 & Hb & H).
    injection H as <- <- <-. unfold _main_branch_name in Hb.
    apply bind_inr in Hb as (v & w3 & Hf & Hb).
    apply fetch_inr in Hf as [Hf ->].
    apply getitem_inr in Hb as (mb & -> & Hn & ->).
    left. exists g, mb. auto.
  - destruct (re_match branch_re url) as [g|]; intros H;
      [|discriminate].
    injection H as <- <- <-. right. split; [reflexivity|].
    exists g. auto.
Qed.

(** X9. A successful [repo_info] fetched, in this order: the main branch
    (only for a repo-root URL, cached answer allowed), the repository
    metadata, and the root listing of the branch; the last two without
    the cache.  The owner/repo is the one read from the URL, and the
    branch is the [name] of the main-branch answer for a repo-root URL
    and the one written in the URL for a branch URL, for which no main
    branch is fetched.  The [readme] of the result is what [_readme_url]
    returned for that owner/repo and branch. *)
Theorem repo_info_fetch_order (url : string) (w w' : log)
    (d : list (string * pyval)) :
  repo_info url w = (inr (PDict d), w') ->
  exists ur branch pre meta listing readme,
    user_repo_of url = Some ur /\
    _user_repo_branch url w = (inr (PStr ur, branch), (w ++ pre)%list) /\
    ((exists g mb,
        re_match repo_re url = Some g /\ ur = group 1 g /\
        pre = [mkCall (_make_api_url (PStr ur) "/main-branch") true
                 (inr (PDict mb))] /\
        assoc "name" mb = Some branch)
     \/ (re_match repo_re url = None /\
         exists g,
           re_match branch_re url = Some g /\ ur = group 1 g /\
           branch = PStr (group 2 g) /\ pre = [])) /\
    w' = (w ++ pre ++
          [ mkCall (_make_api_url (PStr ur) "") false (inr meta);
            mkCall (_make_api_url (PStr ur) ("/src/" ++ fmt branch ++ "/"))
              false (inr listing) ])%list /\
    _readme_url (PStr ur) branch false
      (w ++ pre ++ [mkCall (_make_api_url (PStr ur) "") false (inr meta)])%list
    = (inr readme, w') /\
    assoc "readme" d = Some readme.
Proof.
  unfold repo_info. intros H.
  apply bind_inr in H as ([user_repo branch] & w1 & Hu & H).
  pose proof Hu as Hu'. pose proof Hu as Hu''.
  apply user_repo_branch_inv in Hu as [(-> & _)|(ur & -> & Hne & Hur)];
    [discriminate|].
  apply user_repo_branch_run in Hu'.
  rewrite (truthy_nonempty ur Hne) in H. cbn [negb] in H. cbv zeta in H.
  apply bind_inr in H as (info & w2 & Hf & H).
  apply fetch_inr in Hf as [Hf ->].
  do 5 (apply bind_inr in H as (? & ? & Hg & H);
        apply getitem_inr in Hg as (? & ? & _ & ->)).
  apply bind_inr in H as (readme & w3 & Hr & H).
  pose proof Hr as Hr'. apply readme_url_inr in Hr' as (listing & Hl & ->).
  apply bind_inr in H as (has_issues & w4 & Hi & H).
  apply getitem_inr in Hi as (? & ? & _ & ->).
  injection H as <- <-.
  destruct Hu' as [(g & mb & Hm & Hg & -> & Hn)
                  |(Hm & g & Hb & Hg & Hbr & ->)].
  - exists ur, branch,
      [mkCall (_make_api_url (PStr ur) "/main-branch") true (inr (PDict mb))],
      info, listing, readme.
    rewrite <- !app_assoc in *. cbn [app] in *.
    split; [assumption|]. split; [assumption|].
    split; [left; exists g, mb; auto|]. repeat split; auto.
  - exists ur, branch, [], info, listing, readme.
    rewrite <- !app_assoc in *. cbn [app] in *. rewrite app_nil_r.
    split; [assumption|]. split; [assumption|].
    split; [right; split; [assumption|]; exists g; auto|].
    repeat split; auto.
Qed.

(** X10. When the repository metadata lacks [name], [description],
    [website] or [owner], [repo_info] raises [KeyError] for the first of
    them that is missing, right after the metadata fetch: the root
    listing is not fetched. *)
Theorem missing_field_fails_before_listing (url : string) (w w1 : log)
    (ur : string) (branch : pyval) (info : list (string * pyval))
    (k : string) :
  _user_repo_branch url w = (inr (PStr ur, branch), w1) ->
  respond w1 (_make_api_url (PStr ur) "") false = inr (PDict info) ->
  first_missing ["name"; "description"; "website"; "owner"] info = Some k ->
  repo_info url w
  = (inl (KeyError k),
     (w1 ++ [mkCall (_make_api_url (PStr ur) "") false (inr (PDict info))])%list).
Proof.
  intros Hu Hr Hk.
  assert (Hne : truthy (PStr ur) = true).
  { apply truthy_nonempty.
    destruct (user_repo_branch_inv _ _ _ _ _ Hu) as [(E & _)|(x & E & Hx & _)];
      [discriminate | now injection E as <-]. }
  unfold repo_info, bind. rewrite Hu, Hne. cbn [negb].
  unfold fetch_json. rewrite Hr. cbn [getitem].
  unfold first_missing in Hk. cbn [find] in Hk.
  destruct (assoc "name" info);
    [|injection Hk as <-; reflexivity].
  destruct (assoc "description" info);
    [|injection Hk as <-; reflexivity].
  destruct (assoc "website" info);
    [|injection Hk as <-; reflexivity].
  destruct (assoc "owner" info);
    [discriminate | injection Hk as <-; reflexivity].
Qed.

(** X11. When only [has_issues] is missing, [repo_info] still fetches the
    root listing and looks for the readme; it raises
    [KeyError "has_issues"] after that. *)
Theorem missing_has_issues_fails_after_listing (url : string)
    (w w1 w2 : log) (ur : string) (branch : pyval)
    (info : list (string * pyval)) (readme : pyval) :
  _user_repo_branch url w = (inr (PStr ur, branch), w1) ->
  respond w1 (_make_api_url (PStr ur) "") false = inr (PDict info) ->
  first_missing ["name"; "description"; "website"; "owner"] info = None ->
  assoc "has_issues" info = None ->
  _readme_url (PStr ur) branch false
    (w1 ++ [mkCall (_make_api_url (PStr ur) "") false (inr (PDict info))])%list
  = (inr readme, w2) ->
  repo_info url w = (inl (KeyError "has_issues"), w2)
  /\ exists listing,
       w2 = (w1 ++
             [ mkCall (_make_api_url (PStr ur) "") false (inr (PDict info));
               mkCall (_make_api_url (PStr ur) ("/src/" ++ fmt branch ++ "/"))
                 false (inr listing) ])%list.
Proof.
  intros Hu Hr Hk Hi Hrd.
  assert (Hne : truthy (PStr ur) = true).
  { apply truthy_nonempty.
    destruct (user_repo_branch_inv _ _ _ _ _ Hu) as [(E & _)|(x & E & Hx & _)];
      [discriminate | now injection E as <-]. }
  split.
  - unfold repo_info, bind. rewrite Hu, Hne. cbn [negb].
    unfold fetch_json. rewrite Hr. cbn [getitem].
    unfold first_missing in Hk. cbn [find] in Hk.
    destruct (assoc "name" info); [|discriminate].
    destruct (assoc "description" info); [|discriminate].
    destruct (assoc "website" info); [|discriminate].
    destruct (assoc "owner" info); [|discriminate].
    cbn [ret]. rewrite Hrd, Hi. reflexivity.
  - apply readme_url_inr in Hrd as (listing & _ & ->).
    exists listing. now rewrite <- app_assoc.
Qed.

(* ================================================================= *)
(** ** More on [download_info] *)

(** X12. On a tags URL the version is the selected tag without one
    leading [v]; when nothing is left of the tag, it is made from the
    commit timestamp instead, as for a branch. *)
Theorem tag_version_or_timestamp (url : string) (g : list string) (w : log)
    (tags : list (string * pyval)) (tag : string) (rest : list string)
    (info : list (string * pyval)) (ts : string) :
  re_match tags_re url = Some g ->
  respond w (_make_api_url (PStr (group 1 g)) "/tags") false
    = inr (PDict tags) ->
  version_sort
    (version_filter (map fst tags) (dict_get settings "install_prereleases"))
    true = tag :: rest ->
  respond
    (w ++ [mkCall (_make_api_url (PStr (group 1 g)) "/tags") false
             (inr (PDict tags))])%list
    (_make_api_url (PStr (group 1 g)) ("/changesets/" ++ tag)) false
    = inr (PDict info) ->
  assoc "timestamp" info = Some (PStr ts) ->
  fst (download_info url w)
  = inr (PDict
      [ ("version",
         PStr (if String.eqb (strip_v tag) ""
               then dotted (take 19 ts) else strip_v tag));
        ("url", PStr ("https://bitbucket.org/" ++ group 1 g ++ "/get/"
                        ++ tag ++ ".zip"));
        ("date", PStr (take 19 ts)) ]).
Proof.
  intros Hm Hr Hs Hc Hts.
  unfold download_info, _commit_info. rewrite Hm.
  unfold bind, fetch_json. rewrite Hr. cbn [py_keys ret].
  rewrite Hs. cbn [ret fmt]. rewrite Hc. cbn [getitem]. rewrite Hts.
  cbn [ret py_slice slice]. rewrite re_sub_leading_v. cbn [truthy].
  destruct (String.eqb (strip_v tag) "") eqn:E; cbn [negb].
  - cbn [py_re_sub]. rewrite re_sub_date_sep. reflexivity.
  - reflexivity.
Qed.

(** X13. On a repo-root or branch URL, a changeset without [timestamp]
    makes [download_info] raise [KeyError "timestamp"], and a timestamp
    that is not a string makes it raise [TypeError]; in both cases right
    after the changeset fetch. *)
Theorem bad_timestamp_raises (url : string) (w w1 : log) (ur : string)
    (commit : pyval) (info : list (string * pyval)) :
  re_match tags_re url = None ->
  _user_repo_branch url w = (inr (PStr ur, commit), w1) ->
  respond w1 (_make_api_url (PStr ur) ("/changesets/" ++ fmt commit)) false
    = inr (PDict info) ->
  (assoc "timestamp" info = None ->
   download_info url w
   = (inl (KeyError "timestamp"),
      (w1 ++ [mkCall (_make_api_url (PStr ur) ("/changesets/" ++ fmt commit))
                false (inr (PDict info))])%list))
  /\ (forall ts,
        assoc "timestamp" info = Some ts -> (forall s, ts <> PStr s) ->
        download_info url w
        = (inl TypeError,
           (w1 ++ [mkCall (_make_api_url (PStr ur) ("/changesets/" ++ fmt commit))
                     false (inr (PDict info))])%list)).
Proof.
  intros Ht Hu Hr.
  assert (Hne : truthy (PStr ur) = true).
  { apply truthy_nonempty.
    destruct (user_repo_branch_inv _ _ _ _ _ Hu) as [(E & _)|(x & E & Hx & _)];
      [discriminate | now injection E as <-]. }
  split.
  - intros Hts. unfold download_info, _commit_info. rewrite Ht.
    unfold bind. rewrite Hu, Hne. cbn [negb ret].
    unfold fetch_json. rewrite Hr. cbn [getitem]. now rewrite Hts.
  - intros ts Hts Hns. unfold download_info, _commit_info. rewrite Ht.
    unfold bind. rewrite Hu, Hne. cbn [negb ret].
    unfold fetch_json. rewrite Hr. cbn [getitem]. rewrite Hts.
    destruct ts; try reflexivity. now destruct (Hns s).
Qed.

(** *** URLs the tags pattern is sure to reject *)

Lemma plain_no_slash r :
  all_chars (cset_mem not_hash_slash) r = true ->
  all_chars (cset_mem not_slash) r = true.
Proof.
  induction r as [|c r IH]; cbn [all_chars]; [reflexivity|].
  intros H. apply andb_true_iff in H as [Hc Hr]. rewrite (IH Hr).
  unfold cset_mem, not_hash_slash, not_slash, mem_ascii in *.
  cbn [existsb] in *.
  destruct (Ascii.eqb c "#"), (Ascii.eqb c "/"); simpl in *; congruence.
Qed.

Lemma plain_no_hash r :
  all_chars (cset_mem not_hash_slash) r = true ->
  all_chars (cset_mem not_hash) r = true.
Proof.
  induction r as [|c r IH]; cbn [all_chars]; [reflexivity|].
  intros H. apply andb_true_iff in H as [Hc Hr]. rewrite (IH Hr).
  unfold cset_mem, not_hash_slash, not_hash, mem_ascii in *.
  cbn [existsb] in *.
  destruct (Ascii.eqb c "#"), (Ascii.eqb c "/"); simpl in *; congruence.
Qed.

Lemma tags_re_rejects_src scheme dot u r rest :
  is_scheme scheme -> segment u -> segment r ->
  re_match tags_re (host_url scheme dot (u ++ "/" ++ r ++ "/src/" ++ rest))
  = None.
Proof.
  intros Hs [Hu Au] [Hr Ar].
  destruct (re_match tags_re _) as [g|] eqn:E; [exfalso | reflexivity].
  apply tags_re_shape in E
    as (s' & d' & u' & r' & sl & e & E & Hs' & _ & [_ Au'] & [_ Ar'] & Hsl
        & He & _).
  apply host_url_inj in E as (_ & _ & E); auto.
  cbn [append] in E.
  apply first_slash_unique in E as [<- E]; auto.
  apply plain_no_slash in Ar'.
  destruct Hsl as [-> | ->]; cbn [append] in E.
  - assert (A : all_chars (cset_mem not_slash) (r' ++ String "#" ("tags" ++ e))
                = true).
    { rewrite all_chars_app, Ar'. destruct He as [-> | ->]; reflexivity. }
    cbn [append] in A. rewrite <- E in A. now rewrite slash_inside in A.
  - apply first_slash_unique in E as [_ E]; auto. discriminate.
Qed.

Lemma tags_re_rejects_plain_root scheme dot u r tail :
  is_scheme scheme -> segment u -> plain_segment r ->
  tail = "" \/ tail = "/" ->
  re_match tags_re (host_url scheme dot (u ++ "/" ++ r ++ tail)) = None.
Proof.
  intros Hs [Hu Au] [Hr Ar] Ht.
  destruct (re_match tags_re _) as [g|] eqn:E; [exfalso | reflexivity].
  apply tags_re_shape in E
    as (s' & d' & u' & r' & sl & e & E & Hs' & _ & [_ Au'] & [_ Ar'] & Hsl
        & He & _).
  apply host_url_inj in E as (_ & _ & E); auto.
  cbn [append] in E.
  apply first_slash_unique in E as [<- E]; auto.
  assert (A : all_chars (cset_mem not_hash) (r ++ tail) = true).
  { rewrite all_chars_app, (plain_no_hash r Ar).
    destruct Ht as [-> | ->]; reflexivity. }
  rewrite E, all_chars_app in A. apply andb_true_iff in A as [_ A].
  destruct Hsl as [-> | ->], He as [-> | ->]; vm_compute in A; discriminate.
Qed.

(** X14. For a branch URL [download_info] needs one fetch, the changeset
    of the branch as written in the URL: the version is made from its
    timestamp, and the zip is that of the branch. *)
Theorem branch_url_download (scheme : string) (dot : ascii)
    (user repo branch tail : string) (w : log)
    (info : list (string * pyval)) (ts : string) :
  is_scheme scheme -> dot <> newline ->
  segment user -> segment repo -> segment branch ->
  tail = "" \/ tail = "/" ->
  respond w
    (_make_api_url (PStr (user ++ "/" ++ repo)) ("/changesets/" ++ branch))
    false = inr (PDict info) ->
  assoc "timestamp" info = Some (PStr ts) ->
  download_info
    (host_url scheme dot (user ++ "/" ++ repo ++ "/src/" ++ branch ++ tail)) w
  = (inr (PDict
       [ ("version", PStr (dotted (take 19 ts)));
         ("url", PStr ("https://bitbucket.org/" ++ (user ++ "/" ++ repo)
                         ++ "/get/" ++ branch ++ ".zip"));
         ("date", PStr (take 19 ts)) ]),
     (w ++
      [mkCall
         (_make_api_url (PStr (user ++ "/" ++ repo)) ("/changesets/" ++ branch))
         false (inr (PDict info))])%list).
Proof.
  intros Hs Hd Hu Hr Hb Ht Hc Hts.
  assert (Hne : truthy (PStr (user ++ "/" ++ repo)) = true).
  { apply truthy_nonempty. destruct Hu as [Hu _].
    destruct user; [congruence | discriminate]. }
  unfold download_info, _commit_info.
  rewrite (tags_re_rejects_src scheme dot user repo (branch ++ tail))
    by assumption.
  unfold _user_repo_branch.
  assert (Hno : re_match repo_re
                  (host_url scheme dot
                     (user ++ "/" ++ repo ++ "/src/" ++ branch ++ tail))
                = None).
  { apply (repo_re_rejects_deeper scheme dot user repo
             ("src/" ++ branch ++ tail)); auto; discriminate. }
  rewrite Hno, branch_re_accepts by assumption.
  cbn [group Nat.sub nth]. unfold bind. cbn [ret]. rewrite Hne.
  cbn [negb ret fmt]. unfold fetch_json. rewrite Hc. cbn [getitem].
  rewrite Hts. cbn [ret py_slice slice truthy negb py_re_sub].
  rewrite re_sub_date_sep. reflexivity.
Qed.

(** X15. For a repo-root URL whose repo name holds no [#],
    [download_info] needs two fetches: the main branch of [user/repo],
    cached answer allowed, then the changeset of the branch it names.  The
    version is made from the timestamp of that changeset. *)
Theorem root_url_download (scheme : string) (dot : ascii)
    (user repo tail : string) (w : log)
    (mb : list (string * pyval)) (branch : pyval)
    (info : list (string * pyval)) (ts : string) :
  is_scheme scheme -> dot <> newline ->
  segment user -> plain_segment repo ->
  tail = "" \/ tail = "/" ->
  respond w (_make_api_url (PStr (user ++ "/" ++ repo)) "/main-branch") true
    = inr (PDict mb) ->
  assoc "name" mb = Some branch ->
  respond
    (w ++ [mkCall (_make_api_url (PStr (user ++ "/" ++ repo)) "/main-branch")
             true (inr (PDict mb))])%list
    (_make_api_url (PStr (user ++ "/" ++ repo))
       ("/changesets/" ++ fmt branch))
    false = inr (PDict info) ->
  assoc "timestamp" info = Some (PStr ts) ->
  download_info (host_url scheme dot (user ++ "/" ++ repo ++ tail)) w
  = (inr (PDict
       [ ("version", PStr (dotted (take 19 ts)));
         ("url", PStr ("https://bitbucket.org/" ++ (user ++ "/" ++ repo)
                         ++ "/get/" ++ fmt branch ++ ".zip"));
         ("date", PStr (take 19 ts)) ]),
     (w ++
      [ mkCall (_make_api_url (PStr (user ++ "/" ++ repo)) "/main-branch")
          true (inr (PDict mb));
        mkCall
          (_make_api_url (PStr (user ++ "/" ++ repo))
             ("/changesets/" ++ fmt branch))
          false (inr (PDict info)) ])%list).
Proof.
  intros Hs Hd Hu Hr Ht Hm Hn Hc Hts.
  assert (Hseg : segment repo).
  { destruct Hr as [Hr Ar]. split; [assumption | now apply plain_no_slash]. }
  assert (Hne : truthy (PStr (user ++ "/" ++ repo)) = true).
  { apply truthy_nonempty. destruct Hu as [Hu _].
    destruct user; [congruence | discriminate]. }
  unfold download_info, _commit_info.
  rewrite tags_re_rejects_plain_root by assumption.
  unfold _user_repo_branch. rewrite repo_re_accepts by assumption.
  cbn [group Nat.sub nth]. unfold _main_branch_name, bind, fetch_json.
  rewrite Hm. cbn [getitem]. rewrite Hn. cbn [ret]. rewrite Hne.
  cbn [negb ret]. rewrite Hc. cbn [getitem]. rewrite Hts.
  cbn [ret py_slice slice truthy negb py_re_sub].
  rewrite re_sub_date_sep, <- app_assoc. reflexivity.
Qed.

(* ================================================================= *)
(** ** More on the readme scan and the timestamp version *)

(** X16. An ill-shaped entry that the readme scan reaches before any
    readme makes [_readme_url] raise: [TypeError] when the entry is no
    dict, [KeyError "path"] when it has no [path], [AttributeError] when
    its [path] is no string.  Entries behind the first readme are never
    looked at. *)
Theorem malformed_entry_raises (user_repo branch : pyval)
    (prefer_cached : bool) (w : log) (root : list (string * pyval))
    (before : list pyval) (e : pyval) (after : list pyval) :
  respond w (_make_api_url user_repo ("/src/" ++ fmt branch ++ "/"))
    prefer_cached = inr (PDict root) ->
  assoc "files" root = Some (PList (before ++ e :: after)) ->
  forallb not_readme before = true ->
  path_of e = None ->
  _readme_url user_repo branch prefer_cached w
  = (inl (entry_error e),
     (w ++ [mkCall (_make_api_url user_repo ("/src/" ++ fmt branch ++ "/"))
              prefer_cached (inr (PDict root))])%list).
Proof.
  intros Hr Hf Hb He.
  unfold _readme_url, bind, fetch_json. rewrite Hr. cbn [getitem].
  rewrite Hf. cbn [ret py_iter].
  rewrite readme_scan_skip by assumption.
  cbn [readme_scan]. unfold bind, getitem, entry_error.
  destruct e as [| | | | |d]; try reflexivity.
  unfold path_of in He.
  destruct (assoc "path" d) as [[| | |s| |]|]; try reflexivity.
  discriminate.
Qed.

Lemma dotted_no_separator (s : string) :
  all_chars (fun a => negb (is_date_sep a)) (dotted s) = true.
Proof.
  induction s as [|a s IH]; cbn [dotted all_chars]; [reflexivity|].
  rewrite IH, andb_true_r. destruct (is_date_sep a) eqn:E.
  - reflexivity.
  - now rewrite E.
Qed.

Lemma dotted_length (s : string) :
  String.length (dotted s) = String.length s.
Proof.
  induction s as [|a s IH]; cbn [dotted String.length];
    [reflexivity | now rewrite IH].
Qed.

Lemma take_length_le (n : nat) (s : string) : String.length (take n s) <= n.
Proof.
  unfold take. revert n. induction s as [|a s IH]; intros [|n]; simpl;
    try lia.
  specialize (IH n). lia.
Qed.

(** X17. A version made from a commit timestamp has at most 19
    characters, as many as the date returned with it, and none of them is
    [-], [:] or a space. *)
Theorem timestamp_version_is_clean (url : string) (w w1 : log) (ur : string)
    (commit : pyval) (info : list (string * pyval)) (ts : string) :
  re_match tags_re url = None ->
  _user_repo_branch url w = (inr (PStr ur, commit), w1) ->
  respond w1 (_make_api_url (PStr ur) ("/changesets/" ++ fmt commit)) false
    = inr (PDict info) ->
  assoc "timestamp" info = Some (PStr ts) ->
  exists version date rest,
    fst (download_info url w)
    = inr (PDict (("version", PStr version) :: rest)) /\
    assoc "date" rest = Some (PStr date) /\
    String.length version = String.length date /\
    String.length version <= 19 /\
    all_chars (fun a => negb (is_date_sep a)) version = true.
Proof.
  intros Ht Hu Hr Hts.
  assert (Hne : truthy (PStr ur) = true).
  { apply truthy_nonempty.
    destruct (user_repo_branch_inv _ _ _ _ _ Hu) as [(E & _)|(x & E & Hx & _)];
      [discriminate | now injection E as <-]. }
  exists (dotted (take 19 ts)), (take 19 ts),
    [ ("url", PStr ("https://bitbucket.org/" ++ ur ++ "/get/"
                      ++ fmt commit ++ ".zip"));
      ("date", PStr (take 19 ts)) ].
  repeat split.
  - unfold download_info, _commit_info. rewrite Ht.
    unfold bind. rewrite Hu, Hne. cbn [negb ret].
    unfold fetch_json. rewrite Hr. cbn [getitem]. rewrite Hts.
    cbn [ret py_slice slice truthy negb py_re_sub].
    rewrite re_sub_date_sep. reflexivity.
  - apply dotted_length.
  - rewrite dotted_length. apply take_length_le.
  - apply dotted_no_separator.
Qed.

(* ================================================================= *)
(** ** The documented tags URL and [repo_info] *)

Lemma branch_re_rejects_hash scheme dot u r x :
  is_scheme scheme -> segment u -> segment r ->
  re_match branch_re (host_url scheme dot (u ++ "/" ++ r ++ "/#" ++ x))
  = None.
Proof.
  intros Hs [Hu Au] [Hr Ar].
  destruct (re_match branch_re _) as [g|] eqn:E; [exfalso | reflexivity].
  apply branch_re_shape in E
    as (s' & d' & u' & r' & b & tail & E & Hs' & _ & [_ Au'] & [_ Ar'] & _).
  apply host_url_inj in E as (_ & _ & E); auto.
  cbn [append] in E.
  apply first_slash_unique in E as [<- E]; auto.
  apply first_slash_unique in E as [_ E]; auto. discriminate.
Qed.

(** X18. [repo_info] does not take the tags URL in the form the module
    documents, [.../user/repo/#tags]: it returns [None] without a fetch. *)
Theorem repo_info_rejects_slash_tags (scheme : string) (dot : ascii)
    (user repo : string) (w : log) :
  is_scheme scheme -> segment user -> segment repo ->
  repo_info (host_url scheme dot (user ++ "/" ++ repo ++ "/#tags")) w
  = (inr PNone, w).
Proof.
  intros Hs Hu Hr. unfold repo_info, _user_repo_branch.
  assert (H1 : re_match repo_re
                 (host_url scheme dot (user ++ "/" ++ repo ++ "/#tags"))
               = None).
  { apply (repo_re_rejects_deeper scheme dot user repo "#tags"); auto;
      discriminate. }
  assert (H2 : re_match branch_re
                 (host_url scheme dot (user ++ "/" ++ repo ++ "/#tags"))
               = None).
  { now apply (branch_re_rejects_hash scheme dot user repo "tags"). }
  now rewrite H1, H2.
Qed.

(* ================================================================= *)
(** ** URLs outside the documented forms *)

Lemma foreign_host_url_has_no_shape :
  ~ spec_root_shape foreign_host_url /\
  ~ spec_branch_shape foreign_host_url /\
  ~ spec_tags_shape foreign_host_url.
Proof.
  unfold foreign_host_url. repeat split.
  - intros (scheme & owner & repo & tail & E & [-> | ->] & _);
      cbn in E; discriminate.
  - intros (scheme & owner & repo & branch & tail & E & [-> | ->] & _);
      cbn in E; discriminate.
  - intros (scheme & owner & repo & sl & E & [-> | ->] & _);
      cbn in E; discriminate.
Qed.

Lemma line_feed_url_has_no_shape :
  ~ spec_root_shape line_feed_url /\
  ~ spec_branch_shape line_feed_url /\
  ~ spec_tags_shape line_feed_url.
Proof.
  unfold line_feed_url, nl. repeat split.
  - intros (scheme & owner & repo & tail & E & [-> | ->] & [_ Ao] & [_ Ar]
            & Ht); cbn in E; [discriminate|].
    injection E as E.
    apply (first_slash_unique "u" owner
             (String "r" (String "/" (String newline "")))
             (repo ++ tail)) in E as [_ E]; auto.
    destruct Ht as [-> | ->].
    + rewrite append_empty_r in E. subst repo. discriminate.
    + apply (first_slash_unique "r" repo (String newline "") "") in E
        as [_ E]; auto. discriminate.
  - intros (scheme & owner & repo & branch & tail & E & [-> | ->] & [_ Ao]
            & [_ Ar] & _); cbn in E; [discriminate|].
    injection E as E.
    apply (first_slash_unique "u" owner
             (String "r" (String "/" (String newline "")))
             (repo ++ "/src/" ++ branch ++ tail)) in E as [_ E]; auto.
    apply (first_slash_unique "r" repo (String newline "")
             ("src/" ++ branch ++ tail)) in E as [_ E]; auto.
    discriminate.
  - intros (scheme & owner & repo & sl & E & [-> | ->] & [_ Ao] & [_ Ar]
            & Hsl); cbn in E; [discriminate|].
    injection E as E.
    apply (first_slash_unique "u" owner
             (String "r" (String "/" (String newline "")))
             (repo ++ sl ++ "#tags")) in E as [_ E]; auto.
    destruct Hsl as [-> | ->].
    + assert (A : all_chars (cset_mem not_slash) (repo ++ "" ++ "#tags")
                  = true) by (rewrite all_chars_app, Ar; reflexivity).
      rewrite <- E in A. discriminate.
    + apply (first_slash_unique "r" repo (String newline "") "#tags") in E
        as [_ E]; auto. discriminate.
Qed.

Lemma hash_tags_url_is_a_tags_url : spec_tags_shape hash_tags_url.
Proof.
  exists "https", "u", "r", "". unfold hash_tags_url.
  repeat split; auto; try discriminate. now right.
Qed.

(** Once the repo-root pattern matches, [repo_info] cannot return
    [None]. *)
Lemma repo_info_proceeds_on_root url g :
  re_match repo_re url = Some g -> never_none (repo_info url).
Proof.
  intros Hm. unfold repo_info.
  apply (repo_info_proceeds _ (group 1 g)).
  - now apply (repo_re_group1 url).
  - intros w0 [a b] w1. unfold _user_repo_branch. rewrite Hm.
    intros H. apply bind_inr in H as (x & w2 & _ & H).
    now injection H as <- _ _.
Qed.

(** Once the repo-root pattern matches, [download_info] cannot return
    [None] either. *)
Lemma download_info_proceeds_on_root url g :
  re_match repo_re url = Some g -> never_none (download_info url).
Proof.
  intros Hm w E.
  destruct (download_info url w) as [r w'] eqn:Ed. simpl in E. subst r.
  unfold download_info in Ed.
  apply bind_inr in Ed as (ci & w1 & Hci & H).
  apply commit_info_cases in Hci
    as [(-> & _ & Hr & _)|[(-> & _)|(ur & date & commit & version & ->)]];
    [congruence | discriminate | discriminate].
Qed.

(** Once the repo-root pattern matches, the first thing [repo_info] does
    is to ask for the main branch of the owner/repo it read. *)
Lemma repo_info_first_call_on_root url g w :
  re_match repo_re url = Some g ->
  exists later,
    snd (repo_info url w)
    = (w ++
       mkCall (_make_api_url (PStr (group 1 g)) "/main-branch") true
         (respond w (_make_api_url (PStr (group 1 g)) "/main-branch") true)
       :: later)%list.
Proof.
  intros Hm. unfold repo_info, _user_repo_branch. rewrite Hm.
  unfold _main_branch_name. rewrite !bind_assoc. apply fetch_first.
  intros v. propagate_all.
Qed.

Lemma download_info_first_call_on_root url g w :
  re_match tags_re url = None ->
  re_match repo_re url = Some g ->
  exists later,
    snd (download_info url w)
    = (w ++
       mkCall (_make_api_url (PStr (group 1 g)) "/main-branch") true
         (respond w (_make_api_url (PStr (group 1 g)) "/main-branch") true)
       :: later)%list.
Proof.
  intros Ht Hm. unfold download_info, _commit_info, _user_repo_branch.
  rewrite Ht, Hm. unfold _main_branch_name. rewrite !bind_assoc.
  apply fetch_first.
  intros v. unfold getitem, py_slice, py_re_sub. propagate_all.
Qed.

(** C3. The claim fails on the code: three URLs outside the documented
    forms are not answered with [None].  With any character in place of
    the dot of the host, or with a line feed behind the final slash, the
    repo-root pattern still matches: [repo_info] and [download_info] go on
    and ask the API for the main branch of [u/r].  And [repo_info] takes a
    URL of the tags form for a repo-root URL. *)
Theorem undocumented_urls_are_accepted (w : log) :
  (~ spec_root_shape foreign_host_url /\
   ~ spec_branch_shape foreign_host_url /\
   ~ spec_tags_shape foreign_host_url /\
   re_match repo_re foreign_host_url = Some ["u/r"] /\
   fst (repo_info foreign_host_url w) <> inr PNone /\
   fst (download_info foreign_host_url w) <> inr PNone /\
   (exists later,
      snd (repo_info foreign_host_url w)
      = (w ++
         mkCall (_make_api_url (PStr "u/r") "/main-branch") true
           (respond w (_make_api_url (PStr "u/r") "/main-branch") true)
         :: later)%list) /\
   (exists later,
      snd (download_info foreign_host_url w)
      = (w ++
         mkCall (_make_api_url (PStr "u/r") "/main-branch") true
           (respond w (_make_api_url (PStr "u/r") "/main-branch") true)
         :: later)%list))
  /\ (~ spec_root_shape line_feed_url /\
      ~ spec_branch_shape line_feed_url /\
      ~ spec_tags_shape line_feed_url /\
      re_match repo_re line_feed_url = Some ["u/r"] /\
      fst (repo_info line_feed_url w) <> inr PNone /\
      fst (download_info line_feed_url w) <> inr PNone /\
      (exists later,
         snd (repo_info line_feed_url w)
         = (w ++
            mkCall (_make_api_url (PStr "u/r") "/main-branch") true
              (respond w (_make_api_url (PStr "u/r") "/main-branch") true)
            :: later)%list) /\
      (exists later,
         snd (download_info line_feed_url w)
         = (w ++
            mkCall (_make_api_url (PStr "u/r") "/main-branch") true
              (respond w (_make_api_url (PStr "u/r") "/main-branch") true)
            :: later)%list))
  /\ (spec_tags_shape hash_tags_url /\
      re_match repo_re hash_tags_url = Some ["u/r#tags"] /\
      fst (repo_info hash_tags_url w) <> inr PNone /\
      (exists later,
         snd (repo_info hash_tags_url w)
         = (w ++
            mkCall (_make_api_url (PStr "u/r#tags") "/main-branch") true
              (respond w (_make_api_url (PStr "u/r#tags") "/main-branch")
                 true)
            :: later)%list)).
Proof.
  assert (M1 : re_match repo_re foreign_host_url = Some ["u/r"])
    by reflexivity.
  assert (M2 : re_match repo_re line_feed_url = Some ["u/r"])
    by reflexivity.
  assert (M3 : re_match repo_re hash_tags_url = Some ["u/r#tags"])
    by reflexivity.
  assert (T1 : re_match tags_re foreign_host_url = None) by reflexivity.
  assert (T2 : re_match tags_re line_feed_url = None) by reflexivity.
  destruct foreign_host_url_has_no_shape as (A1 & A2 & A3).
  destruct line_feed_url_has_no_shape as (B1 & B2 & B3).
  split; [|split].
  - repeat (split; [assumption|]). split; [|split; [|split]].
    + apply (repo_info_proceeds_on_root _ _ M1).
    + apply (download_info_proceeds_on_root _ _ M1).
    + apply (repo_info_first_call_on_root _ _ w M1).
    + apply (download_info_first_call_on_root _ _ w T1 M1).
  - repeat (split; [assumption|]). split; [|split; [|split]].
    + apply (repo_info_proceeds_on_root _ _ M2).
    + apply (download_info_proceeds_on_root _ _ M2).
    + apply (repo_info_first_call_on_root _ _ w M2).
    + apply (download_info_first_call_on_root _ _ w T2 M2).
  - split; [apply hash_tags_url_is_a_tags_url|]. split; [assumption|].
    split.
    + apply (repo_info_proceeds_on_root _ _ M3).
    + apply (repo_info_first_call_on_root _ _ w M3).
Qed.

(* ================================================================= *)
(** ** A tags URL without the slash, handed to [repo_info] *)

(** C5. A [#tags] URL written without a slash before the fragment is
    taken by [repo_info] for a bare repo-root URL, and processed as one.
    The repo-root pattern matches it with an owner/repo that ends in
    [#tags]; the result is never [None]; the first fetch asks for the main
    branch of that name; when that answers a branch name, the second fetch
    asks for the metadata of that name; and when the metadata and the root
    listing of the branch are answered too, [repo_info] returns the
    populated dict, built for the repository [{user}/{repo}#tags]. *)
Theorem repo_info_accepts_hash_tags (user repo : string) (w : log) :
  user <> "" ->
  all_chars (cset_mem not_slash) user = true ->
  all_chars (cset_mem not_slash) repo = true ->
  re_match repo_re ("https://bitbucket.org/" ++ user ++ "/" ++ repo ++ "#tags")
    = Some [user ++ "/" ++ repo ++ "#tags"]
  /\ fst (repo_info ("https://bitbucket.org/" ++ user ++ "/" ++ repo ++ "#tags") w)
       <> inr PNone
  /\ (exists later,
       snd (repo_info ("https://bitbucket.org/" ++ user ++ "/" ++ repo ++ "#tags") w)
       = (w ++
          mkCall
            (_make_api_url (PStr (user ++ "/" ++ repo ++ "#tags")) "/main-branch")
            true
            (respond w
               (_make_api_url (PStr (user ++ "/" ++ repo ++ "#tags")) "/main-branch")
               true)
          :: later)%list)
  /\ (forall mb branch,
        respond w
          (_make_api_url (PStr (user ++ "/" ++ repo ++ "#tags")) "/main-branch")
          true = inr (PDict mb) ->
        assoc "name" mb = Some branch ->
        exists later,
          snd (repo_info
                 ("https://bitbucket.org/" ++ user ++ "/" ++ repo ++ "#tags") w)
          = (w ++
             mkCall
               (_make_api_url (PStr (user ++ "/" ++ repo ++ "#tags"))
                  "/main-branch")
               true (inr (PDict mb))
             :: mkCall
                  (_make_api_url (PStr (user ++ "/" ++ repo ++ "#tags")) "")
                  false
                  (respond
                     (w ++
                      [mkCall
                         (_make_api_url
                            (PStr (user ++ "/" ++ repo ++ "#tags"))
                            "/main-branch")
                         true (inr (PDict mb))])%list
                     (_make_api_url (PStr (user ++ "/" ++ repo ++ "#tags")) "")
                     false)
             :: later)%list)
  /\ (forall mb branch info name description website owner has_issues
        readme w3,
        respond w
          (_make_api_url (PStr (user ++ "/" ++ repo ++ "#tags")) "/main-branch")
          true = inr (PDict mb) ->
        assoc "name" mb = Some branch ->
        respond
          (w ++
           [mkCall
              (_make_api_url (PStr (user ++ "/" ++ repo ++ "#tags"))
                 "/main-branch")
              true (inr (PDict mb))])%list
          (_make_api_url (PStr (user ++ "/" ++ repo ++ "#tags")) "")
          false = inr (PDict info) ->
        assoc "name" info = Some name ->
        assoc "description" info = Some description ->
        assoc "website" info = Some website ->
        assoc "owner" info = Some owner ->
        assoc "has_issues" info = Some has_issues ->
        _readme_url (PStr (user ++ "/" ++ repo ++ "#tags")) branch false
          (w ++
           [ mkCall
               (_make_api_url (PStr (user ++ "/" ++ repo ++ "#tags"))
                  "/main-branch")
               true (inr (PDict mb));
             mkCall
               (_make_api_url (PStr (user ++ "/" ++ repo ++ "#tags")) "")
               false (inr (PDict info)) ])%list
        = (inr readme, w3) ->
        repo_info ("https://bitbucket.org/" ++ user ++ "/" ++ repo ++ "#tags") w
        = (inr (PDict
             [ ("name", name);
               ("description",
                py_or description (PStr "No description provided"));
               ("homepage",
                py_or website
                  (PStr ("https://bitbucket.org/" ++ user ++ "/" ++ repo
                           ++ "#tags")));
               ("author", owner);
               ("donate",
                PStr ("https://www.gittip.com/on/bitbucket/" ++ fmt owner
                        ++ "/"));
               ("readme", readme);
               ("issues",
                if truthy has_issues
                then PStr ("https://bitbucket.org/"
                             ++ (user ++ "/" ++ repo ++ "#tags") ++ "/issues")
                else PNone) ]),
           w3)
        /\ exists listing,
             w3 = (w ++
                   [ mkCall
                       (_make_api_url (PStr (user ++ "/" ++ repo ++ "#tags"))
                          "/main-branch")
                       true (inr (PDict mb));
                     mkCall
                       (_make_api_url (PStr (user ++ "/" ++ repo ++ "#tags"))
                          "")
                       false (inr (PDict info));
                     mkCall
                       (_make_api_url (PStr (user ++ "/" ++ repo ++ "#tags"))
                          ("/src/" ++ fmt branch ++ "/"))
                       false (inr listing) ])%list).
Proof.
  intros Hu Au Ar.
  assert (Hm : re_match repo_re
                 ("https://bitbucket.org/" ++ user ++ "/" ++ repo ++ "#tags")
               = Some [user ++ "/" ++ repo ++ "#tags"]).
  { apply repo_re_matches_segment; auto.
    - destruct repo; discriminate.
    - rewrite all_chars_app, Ar. reflexivity. }
  assert (Hne : truthy (PStr (user ++ "/" ++ repo ++ "#tags")) = true).
  { apply truthy_nonempty. destruct user; [congruence | discriminate]. }
  split; [exact Hm|]. split; [|split; [|split]].
  - apply (repo_info_proceeds_on_root _ _ Hm).
  - apply (repo_info_first_call_on_root _ _ w Hm).
  - intros mb branch Hmb Hn.
    unfold repo_info, _user_repo_branch. rewrite Hm.
    cbn [group Nat.sub nth]. unfold _main_branch_name.
    unfold bind at 1 2 3. unfold fetch_json at 1. rewrite Hmb.
    cbn [getitem]. rewrite Hn. cbn [ret]. rewrite Hne. cbn [negb].
    cbv zeta.
    match goal with
    | |- exists later, snd (bind (fetch_json ?u ?b) ?f ?w0) = _ =>
        destruct (fetch_first u b f w0) as [later Hl]
    end.
    + intros v. propagate_all.
    + exists later. rewrite Hl. now rewrite <- app_assoc.
  - intros mb branch info name description website owner has_issues
      readme w3 Hmb Hn Hi Hname Hd Hw Ho Hh Hr.
    split.
    + unfold repo_info, _user_repo_branch. rewrite Hm.
      cbn [group Nat.sub nth]. unfold _main_branch_name.
      unfold bind, fetch_json. rewrite Hmb. cbn [getitem]. rewrite Hn.
      cbn [ret]. rewrite Hne. cbn [negb]. rewrite Hi. cbn [getitem].
      rewrite Hname, Hd, Hw, Ho. cbn [ret].
      rewrite <- app_assoc. cbn [app]. rewrite Hr, Hh. reflexivity.
    + apply readme_url_inr in Hr as (listing & _ & ->).
      exists listing. rewrite <- app_assoc. reflexivity.
Qed.

End Client.

(* ================================================================= *)
(** ** The version helpers *)

Lemma sort_insert_in reverse x l y :
  In y (sort_insert reverse x l) -> y = x \/ In y l.
Proof.
  induction l as [|z l IH]; simpl.
  - intros [<-|[]]. now left.
  - destruct (ranks_before reverse z x); simpl.
    + intros [<-|H]; [right; now left|].
      destruct (IH H) as [->|H']; [now left | right; now right].
    + intros [<-|[<-|H]]; auto.
Qed.

Lemma semver_sort_in reverse l y : In y (semver_sort l reverse) -> In y l.
Proof.
  induction l as [|x l IH]; simpl; [tauto|].
  intros H. apply sort_insert_in in H as [->|H]; auto.
Qed.

Lemma semver_filter_stripped versions allow tag :
  In tag (semver_filter versions allow) -> strip_v tag <> "".
Proof.
  unfold semver_filter. intros H. apply filter_In in H as [_ H].
  unfold semver_keep, semver_of in H. intros E. rewrite E in H.
  discriminate.
Qed.

(** *** Comparisons that are total orders *)

Section TotalCmp.
Context {A : Type} (cmp : A -> A -> comparison) (T : total_cmp cmp).

Lemma cmp_refl a : cmp a a = Eq.
Proof.
  pose proof (cmp_antisym cmp T a a) as H.
  destruct (cmp a a); simpl in H; congruence.
Qed.

Lemma cmp_flip a b : cmp a b <> Lt <-> cmp b a <> Gt.
Proof.
  rewrite (cmp_antisym cmp T a b). destruct (cmp b a); simpl; split; congruence.
Qed.

Lemma cmp_eq_trans a b c : cmp a b = Eq -> cmp b c = Eq -> cmp a c = Eq.
Proof.
  intros H1 H2.
  assert (L : cmp a c <> Gt) by (apply (cmp_trans cmp T a b c); congruence).
  assert (R : cmp c a <> Gt).
  { apply (cmp_trans cmp T c b a).
    - rewrite (cmp_antisym cmp T), H2. discriminate.
    - rewrite (cmp_antisym cmp T), H1. discriminate. }
  rewrite (cmp_antisym cmp T c a) in R.
  destruct (cmp a c); simpl in *; congruence.
Qed.

Lemma cmp_lt_le a b c : cmp a b = Lt -> cmp b c <> Gt -> cmp a c = Lt.
Proof.
  intros H1 H2.
  assert (L : cmp a c <> Gt) by (apply (cmp_trans cmp T a b c); congruence).
  destruct (cmp a c) eqn:E; try congruence.
  exfalso.
  assert (R : cmp b a <> Gt).
  { apply (cmp_trans cmp T b c a); [assumption|].
    rewrite (cmp_antisym cmp T), E. discriminate. }
  rewrite (cmp_antisym cmp T), H1 in R. now apply R.
Qed.

Lemma cmp_le_lt a b c : cmp a b <> Gt -> cmp b c = Lt -> cmp a c = Lt.
Proof.
  intros H1 H2.
  assert (L : cmp a c <> Gt) by (apply (cmp_trans cmp T a b c); congruence).
  destruct (cmp a c) eqn:E; try congruence.
  exfalso.
  assert (R : cmp c b <> Gt).
  { apply (cmp_trans cmp T c a b); [|assumption].
    rewrite (cmp_antisym cmp T), E. discriminate. }
  rewrite (cmp_antisym cmp T), H2 in R. now apply R.
Qed.

(** Comparing through a function. *)
Lemma total_cmp_on {B} (f : B -> A) : total_cmp (fun x y => cmp (f x) (f y)).
Proof.
  split; intros.
  - apply (cmp_antisym cmp T).
  - now apply (cmp_trans cmp T _ (f b)).
Qed.

(** One comparison, then another to break its ties. *)
Lemma total_cmp_then (cmp2 : A -> A -> comparison) :
  total_cmp cmp2 -> total_cmp (fun a b => then_cmp (cmp a b) (cmp2 a b)).
Proof.
  intros T2. split.
  - intros a b. rewrite (cmp_antisym cmp T a b), (cmp_antisym cmp2 T2 a b).
    now destruct (cmp b a).
  - intros a b c H1 H2.
    destruct (cmp a b) eqn:E1; simpl in H1; try congruence;
      destruct (cmp b c) eqn:E2; simpl in H2; try congruence.
    + rewrite (cmp_eq_trans a b c E1 E2). simpl.
      now apply (cmp_trans cmp2 T2 a b c).
    + rewrite (cmp_le_lt a b c); [discriminate | congruence | assumption].
    + rewrite (cmp_lt_le a b c); [discriminate | assumption | congruence].
    + rewrite (cmp_lt_le a b c); [discriminate | assumption | congruence].
Qed.

Lemma total_cmp_option : total_cmp (cmp_option cmp).
Proof.
  split.
  - intros [a|] [b|]; simpl; auto. apply (cmp_antisym cmp T).
  - intros [a|] [b|] [c|]; simpl; try congruence.
    apply (cmp_trans cmp T).
Qed.

End TotalCmp.

Lemma total_cmp_N : total_cmp N.compare.
Proof.
  split.
  - intros a b. apply N.compare_antisym.
  - intros a b c. apply N.le_trans.
Qed.

Lemma total_cmp_ascii : total_cmp Ascii.compare.
Proof. apply (total_cmp_on N.compare total_cmp_N N_of_ascii). Qed.

Lemma total_cmp_string : total_cmp String.compare.
Proof.
  pose proof total_cmp_ascii as TA. split.
  - apply String.compare_antisym.
  - intros a. induction a as [|x a IH]; intros [|y b] [|z c]; simpl;
      try congruence.
    destruct (Ascii.compare x y) eqn:E1; try congruence;
      destruct (Ascii.compare y z) eqn:E2; try congruence; intros H1 H2.
    + rewrite (cmp_eq_trans _ TA x y z E1 E2). now apply (IH b c).
    + rewrite (cmp_le_lt _ TA x y z); [discriminate | congruence | assumption].
    + rewrite (cmp_lt_le _ TA x y z); [discriminate | assumption | congruence].
    + rewrite (cmp_lt_le _ TA x y z); [discriminate | assumption | congruence].
Qed.

Lemma total_cmp_ident : total_cmp cmp_ident.
Proof.
  pose proof total_cmp_N as TN. pose proof total_cmp_string as TS. split.
  - intros a b. unfold cmp_ident.
    destruct (is_numeric a), (is_numeric b); simpl; auto.
    + apply N.compare_antisym.
    + apply String.compare_antisym.
  - intros a b c. unfold cmp_ident.
    destruct (is_numeric a), (is_numeric b), (is_numeric c); simpl;
      try congruence.
    + apply (cmp_trans _ TN).
    + apply (cmp_trans _ TS).
Qed.

Lemma total_cmp_idents : total_cmp cmp_idents.
Proof.
  pose proof total_cmp_ident as TI. split.
  - intros a. induction a as [|x a IH]; intros [|y b]; simpl; auto.
    rewrite (cmp_antisym _ TI x y), (IH b). now destruct (cmp_ident y x).
  - intros a. induction a as [|x a IH]; intros [|y b] [|z c]; simpl;
      try congruence.
    destruct (cmp_ident x y) eqn:E1; simpl; try congruence;
      destruct (cmp_ident y z) eqn:E2; simpl; try congruence; intros H1 H2.
    + rewrite (cmp_eq_trans _ TI x y z E1 E2). simpl. now apply (IH b c).
    + rewrite (cmp_le_lt _ TI x y z); [discriminate | congruence | assumption].
    + rewrite (cmp_lt_le _ TI x y z); [discriminate | assumption | congruence].
    + rewrite (cmp_lt_le _ TI x y z); [discriminate | assumption | congruence].
Qed.

Lemma total_cmp_prerelease : total_cmp cmp_prerelease.
Proof.
  pose proof total_cmp_idents as TI. split.
  - intros [|x a] [|y b]; simpl; auto.
    apply (cmp_antisym _ TI (x :: a) (y :: b)).
  - intros [|x a] [|y b] [|z c]; simpl; try congruence.
    apply (cmp_trans _ TI (x :: a) (y :: b) (z :: c)).
Qed.

Lemma total_cmp_semver : total_cmp cmp_semver.
Proof.
  unfold cmp_semver.
  apply (total_cmp_then (fun a b => N.compare (major a) (major b))
           (total_cmp_on _ total_cmp_N major)).
  apply (total_cmp_then (fun a b => N.compare (minor a) (minor b))
           (total_cmp_on _ total_cmp_N minor)).
  apply (total_cmp_then (fun a b => N.compare (patch a) (patch b))
           (total_cmp_on _ total_cmp_N patch)).
  apply (total_cmp_on _ total_cmp_prerelease prerelease).
Qed.

Lemma total_cmp_tag : total_cmp cmp_tag.
Proof.
  apply (total_cmp_on _ (total_cmp_option _ total_cmp_semver) semver_of).
Qed.

(** *** The sort *)

Lemma sort_insert_has reverse x l y :
  y = x \/ In y l -> In y (sort_insert reverse x l).
Proof.
  induction l as [|z l IH]; simpl.
  - intros [->|[]]. now left.
  - destruct (ranks_before reverse z x); simpl.
    + intros [->|[->|H]]; auto.
    + intros [->|[->|H]]; auto.
Qed.

Lemma semver_sort_has reverse l y : In y l -> In y (semver_sort l reverse).
Proof.
  induction l as [|x l IH]; simpl; [tauto|].
  intros [->|H]; apply sort_insert_has; auto.
Qed.

(** The head of a descending sort is not below any element. *)
Lemma semver_sort_head_max l : forall tag rest,
  semver_sort l true = tag :: rest ->
  forall t, In t l -> cmp_tag tag t <> Lt.
Proof.
  pose proof total_cmp_tag as TT.
  induction l as [|x l IH]; intros tag rest E t Ht; [destruct Ht|].
  simpl in E. destruct (semver_sort l true) as [|y ys] eqn:Es.
  - simpl in E. injection E as <- <-.
    destruct Ht as [<-|Ht]; [rewrite (cmp_refl _ TT); discriminate|].
    apply (semver_sort_has true) in Ht. rewrite Es in Ht. destruct Ht.
  - simpl in E. unfold ranks_before in E.
    destruct (cmp_tag y x) eqn:C; simpl in E; injection E as <- <-.
    + destruct Ht as [<-|Ht]; [rewrite (cmp_refl _ TT); discriminate|].
      apply (cmp_flip _ TT). apply (cmp_trans _ TT t y x).
      * apply (cmp_flip _ TT). now apply (IH y ys).
      * congruence.
    + destruct Ht as [<-|Ht]; [rewrite (cmp_refl _ TT); discriminate|].
      apply (cmp_flip _ TT). apply (cmp_trans _ TT t y x).
      * apply (cmp_flip _ TT). now apply (IH y ys).
      * congruence.
    + destruct Ht as [<-|Ht]; [congruence|]. now apply (IH y ys).
Qed.

(** C4. With the version helpers as the spec describes them, on a [#tags]
    URL [download_info] takes the names of the fetched tags, filters them
    under the [install_prereleases] setting, sorts them in descending
    order and takes the first one: that tag names the changeset and the
    zip, and the version is the tag without one leading [v]; no eligible
    tag has a higher version.  For the tags v1.0.0, v2.0.0, v1.5.0 and no
    prereleases the tag is v2.0.0 and the version 2.0.0. *)
Theorem highest_tag_selected
    (respond : log -> string -> bool -> exn + pyval)
    (settings : list (string * pyval)) (py_str : pyval -> string)
    (url : string) (g : list string) (w : log)
    (tags : list (string * pyval)) (tag : string) (rest : list string)
    (info : list (string * pyval)) (ts : string) :
  re_match tags_re url = Some g ->
  respond w (_make_api_url py_str (PStr (group 1 g)) "/tags") false
    = inr (PDict tags) ->
  semver_sort
    (semver_filter (map fst tags) (dict_get settings "install_prereleases"))
    true = tag :: rest ->
  respond
    (w ++ [mkCall (_make_api_url py_str (PStr (group 1 g)) "/tags") false
             (inr (PDict tags))])%list
    (_make_api_url py_str (PStr (group 1 g)) ("/changesets/" ++ tag)) false
    = inr (PDict info) ->
  assoc "timestamp" info = Some (PStr ts) ->
  fst (download_info respond settings semver_filter semver_sort py_str url w)
  = inr (PDict
      [ ("version", PStr (strip_v tag));
        ("url", PStr ("https://bitbucket.org/" ++ group 1 g ++ "/get/"
                        ++ tag ++ ".zip"));
        ("date", PStr (take 19 ts)) ])
  /\ (forall t,
        In t (semver_filter (map fst tags)
                (dict_get settings "install_prereleases")) ->
        cmp_tag tag t <> Lt)
  /\ semver_sort (semver_filter ["v1.0.0"; "v2.0.0"; "v1.5.0"] (PBool false))
       true
     = ["v2.0.0"; "v1.5.0"; "v1.0.0"]
  /\ strip_v "v2.0.0" = "2.0.0"
  /\ fst (download_info sample_respond sample_settings semver_filter
            semver_sort sample_str "https://bitbucket.org/u/r/#tags" [])
     = inr (PDict sample_tag_download_info).
Proof.
  intros Hm Hr Hs Hc Hts.
  split; [|split; [exact (semver_sort_head_max _ _ _ Hs) | repeat split]].
  apply (download_info_tag respond settings semver_filter semver_sort py_str
           url g w tags tag rest info (PStr ts)); auto.
  apply (semver_filter_stripped (map fst tags)
           (dict_get settings "install_prereleases")).
  apply (semver_sort_in true). rewrite Hs. now left.
Qed.

(* ================================================================= *)
(** ** The theorems on the sample site *)

Lemma highest_tag_selected_sample :
  fst (download_info sample_respond sample_settings semver_filter
         semver_sort sample_str "https://bitbucket.org/u/r/#tags" [])
  = inr (PDict
      [ ("version", PStr (strip_v "v2.0.0"));
        ("url", PStr ("https://bitbucket.org/" ++ group 1 ["u/r"] ++ "/get/"
                        ++ "v2.0.0" ++ ".zip"));
        ("date", PStr (take 19 "2014-03-12 10:00:00+00:00")) ]).
Proof.
  apply (highest_tag_selected sample_respond sample_settings sample_str
           "https://bitbucket.org/u/r/#tags" ["u/r"] []
           [("v1.0.0", PDict []); ("v2.0.0", PDict []); ("v1.5.0", PDict [])]
           "v2.0.0" ["v1.5.0"; "v1.0.0"]
           [("timestamp", PStr "2014-03-12 10:00:00+00:00")]
           "2014-03-12 10:00:00+00:00");
    reflexivity.
Defined.

(** C1, as the spec words it, fails: the version made from the timestamp
    "2014-03-12T10:00:00+00:00" keeps the [T]. *)
Lemma timestamp_version_keeps_T :
  re_match tags_re "https://bitbucket.org/u/r" = None
  /\ assoc "https://api.bitbucket.org/1.0/repositories/u/r/changesets/master"
       sample_site
     = Some (PDict [("timestamp", PStr "2014-03-12T10:00:00+00:00")])
  /\ version_of
       (fst (download_info sample_respond sample_settings semver_filter
               semver_sort sample_str "https://bitbucket.org/u/r" []))
     = Some (PStr "2014.03.12T10.00.00")
  /\ version_of
       (fst (download_info sample_respond sample_settings semver_filter
               semver_sort sample_str "https://bitbucket.org/u/r" []))
     <> Some (PStr "2014.03.12.10.00.00").
Proof.
  repeat split. vm_compute. discriminate.
Qed.

Lemma timestamp_version_sample :
  fst (download_info sample_respond sample_settings semver_filter
         semver_sort sample_str "https://bitbucket.org/u/r" [])
  = inr (PDict sample_download_info).
Proof.
  apply (timestamp_version sample_respond sample_settings semver_filter
           semver_sort sample_str "https://bitbucket.org/u/r" []
           [mkCall "https://api.bitbucket.org/1.0/repositories/u/r/main-branch"
              true (inr (PDict [("name", PStr "master")]))]
           "u/r" (PStr "master")
           [("timestamp", PStr "2014-03-12T10:00:00+00:00")]
           "2014-03-12T10:00:00+00:00");
    reflexivity.
Defined.

Lemma no_eligible_tag_sample :
  download_info sample_respond sample_settings semver_filter semver_sort
    sample_str "https://bitbucket.org/u/untagged/#tags" []
  = (inr (PBool false),
     [mkCall "https://api.bitbucket.org/1.0/repositories/u/untagged/tags"
        false (inr (PDict [("nightly", PDict []); ("tip", PDict [])]))]).
Proof.
  apply (no_eligible_tag_returns_False sample_respond sample_settings
           semver_filter semver_sort sample_str
           "https://bitbucket.org/u/untagged/#tags" ["u/untagged"] []
           [("nightly", PDict []); ("tip", PDict [])]);
    reflexivity.
Defined.

Lemma unmatched_url_sample :
  repo_info sample_respond sample_str "https://bitbucket.org/u/r/#tags" []
    = (inr PNone, [])
  /\ download_info sample_respond sample_settings semver_filter semver_sort
       sample_str "https://bitbucket.org/u/r/wiki/Home" []
     = (inr PNone, []).
Proof.
  split.
  - apply (unmatched_url_returns_None sample_respond sample_settings
             semver_filter semver_sort sample_str
             "https://bitbucket.org/u/r/#tags" []); reflexivity.
  - apply (unmatched_url_returns_None sample_respond sample_settings
             semver_filter semver_sort sample_str
             "https://bitbucket.org/u/r/wiki/Home" []); reflexivity.
Defined.

Lemma readme_first_match_sample :
  fst (_readme_url sample_respond sample_str (PStr "u/r") (PStr "master")
         false [])
  = inr (PStr "https://bitbucket.org/u/r/raw/master/README.MD").
Proof.
  destruct (readme_first_match sample_respond sample_str (PStr "u/r")
              (PStr "master") false []
              [("files",
                PList [PDict [("path", PStr "setup.py")];
                       PDict [("path", PStr "README.MD")];
                       PDict [("path", PStr "readme.txt")]])]
              [PDict [("path", PStr "setup.py")];
               PDict [("path", PStr "README.MD")];
               PDict [("path", PStr "readme.txt")]]
              eq_refl eq_refl) as (Hfirst & _).
  apply (Hfirst [PDict [("path", PStr "setup.py")]]
           (PDict [("path", PStr "README.MD")]) "README.MD"
           [PDict [("path", PStr "readme.txt")]]); reflexivity.
Defined.


Lemma description_and_homepage_sample :
  exists ur info description website,
    user_repo_of "https://bitbucket.org/u/r" = Some ur /\
    fetched []
      (snd (repo_info sample_respond sample_str "https://bitbucket.org/u/r" []))
      (mkCall (_make_api_url sample_str (PStr ur) "") false
         (inr (PDict info))) /\
    assoc "description" info = Some description /\
    assoc "website" info = Some website /\
    assoc "description" sample_repo_info
    = Some (if truthy description then description
            else PStr "No description provided") /\
    assoc "homepage" sample_repo_info
    = Some (if truthy website then website
            else PStr "https://bitbucket.org/u/r") /\
    (description = PStr "" ->
     assoc "description" sample_repo_info
     = Some (PStr "No description provided")) /\
    (website = PStr "" ->
     assoc "homepage" sample_repo_info
     = Some (PStr "https://bitbucket.org/u/r")).
Proof.
  apply (description_and_homepage sample_respond sample_str
           "https://bitbucket.org/u/r" []).
  reflexivity.
Defined.

Lemma download_url_and_date_sample :
  exists ur commit info ts date calls,
    ((exists g tags tag rest,
        re_match tags_re "https://bitbucket.org/u/r" = Some g /\
        ur = group 1 g /\
        fetched []
          (snd (download_info sample_respond sample_settings semver_filter
                  semver_sort sample_str "https://bitbucket.org/u/r" []))
          (mkCall (_make_api_url sample_str (PStr ur) "/tags") false
             (inr (PDict tags))) /\
        semver_sort
          (semver_filter (map fst tags)
             (dict_get sample_settings "install_prereleases")) true
        = tag :: rest /\
        commit = PStr tag)
     \/ (re_match tags_re "https://bitbucket.org/u/r" = None /\
         exists w1,
           _user_repo_branch sample_respond sample_str
             "https://bitbucket.org/u/r" []
           = (inr (PStr ur, commit), w1))) /\
    snd (download_info sample_respond sample_settings semver_filter
           semver_sort sample_str "https://bitbucket.org/u/r" [])
    = ([] ++ calls ++
       [mkCall
          (_make_api_url sample_str (PStr ur)
             ("/changesets/" ++ fmt sample_str commit))
          false (inr (PDict info))])%list /\
    assoc "timestamp" info = Some ts /\
    slice ts 19 = Some date /\
    (forall s, ts = PStr s -> date = PStr (take 19 s)) /\
    assoc "url" sample_download_info
    = Some (PStr ("https://bitbucket.org/" ++ ur ++ "/get/"
                    ++ fmt sample_str commit ++ ".zip")) /\
    assoc "date" sample_download_info = Some date.
Proof.
  apply (download_url_and_date sample_respond sample_settings semver_filter
           semver_sort sample_str "https://bitbucket.org/u/r" []).
  reflexivity.
Defined.

(* ================================================================= *)
(** ** More theorems on the sample sites *)

Ltac shape_side :=
  solve [ left; reflexivity
        | right; reflexivity
        | split; [discriminate | reflexivity]
        | let H := fresh in intro H; vm_compute in H; discriminate
        | reflexivity ].

Lemma user_repo_has_two_segments_sample :
  exists scheme dot user repo rest,
    "https://bitbucket.org/u/r/src/dev"
    = host_url scheme dot (user ++ "/" ++ repo ++ rest) /\
    is_scheme scheme /\ dot <> newline /\
    segment user /\ segment repo /\
    "u/r" = user ++ "/" ++ repo.
Proof.
  apply (user_repo_has_two_segments sample_respond sample_str
           "https://bitbucket.org/u/r/src/dev" [] [] "u/r" (PStr "dev")).
  reflexivity.
Defined.

Lemma branch_url_needs_no_fetch_sample :
  _user_repo_branch sample_respond sample_str
    "https://bitbucket.org/u/r/src/dev/" []
  = (inr (PStr "u/r", PStr "dev"), []).
Proof.
  apply (branch_url_needs_no_fetch sample_respond sample_str
           "https" "."%char "u" "r" "dev" "/" []); shape_side.
Defined.

Lemma root_url_asks_main_branch_sample :
  _user_repo_branch sample_respond sample_str "http://bitbucket.org/u/r" []
  = (inr (PStr "u/r", PStr "master"),
     [mkCall "https://api.bitbucket.org/1.0/repositories/u/r/main-branch"
        true (inr (PDict [("name", PStr "master")]))]).
Proof.
  apply (root_url_asks_main_branch sample_respond sample_str
           "http" "."%char "u" "r" "" []); shape_side.
Defined.

Lemma None_means_unmatched_sample :
  re_match tags_re "https://bitbucket.org/u/r/wiki/Home" = None /\
  re_match repo_re "https://bitbucket.org/u/r/wiki/Home" = None /\
  re_match branch_re "https://bitbucket.org/u/r/wiki/Home" = None /\
  @nil call = [].
Proof.
  apply (proj1 (None_means_unmatched sample_respond sample_settings
                  semver_filter semver_sort sample_str
                  "https://bitbucket.org/u/r/wiki/Home" [] [])).
  reflexivity.
Defined.

Lemma False_means_no_eligible_tag_sample :
  exists g tags,
    re_match tags_re "https://bitbucket.org/u/untagged/#tags" = Some g /\
    sample_respond [] (_make_api_url sample_str (PStr (group 1 g)) "/tags")
      false = inr (PDict tags) /\
    semver_sort
      (semver_filter (map fst tags)
         (dict_get sample_settings "install_prereleases")) true = [] /\
    [mkCall "https://api.bitbucket.org/1.0/repositories/u/untagged/tags"
       false (inr (PDict [("nightly", PDict []); ("tip", PDict [])]))]
    = ([] ++ [mkCall (_make_api_url sample_str (PStr (group 1 g)) "/tags")
                false (inr (PDict tags))])%list.
Proof.
  apply (False_means_no_eligible_tag sample_respond sample_settings
           semver_filter semver_sort sample_str
           "https://bitbucket.org/u/untagged/#tags" []).
  reflexivity.
Defined.

Lemma tags_url_fetches_tags_first_sample :
  fst (download_info sample_respond sample_settings semver_filter
         semver_sort sample_str "https://bitbucket.org/u/r#tags" [])
    <> inr PNone
  /\ exists later,
       snd (download_info sample_respond sample_settings semver_filter
              semver_sort sample_str "https://bitbucket.org/u/r#tags" [])
       = ([] ++
          mkCall (_make_api_url sample_str (PStr "u/r") "/tags") false
            (sample_respond []
               (_make_api_url sample_str (PStr "u/r") "/tags") false)
          :: later)%list.
Proof.
  apply (tags_url_fetches_tags_first sample_respond sample_settings
           semver_filter semver_sort sample_str
           "https" "."%char "u" "r" "" []); shape_side.
Defined.

Lemma repo_info_keys_and_owner_sample :
  exists ur info name owner,
    user_repo_of "https://bitbucket.org/u/r" = Some ur /\
    fetched []
      (snd (repo_info sample_respond sample_str "https://bitbucket.org/u/r" []))
      (mkCall (_make_api_url sample_str (PStr ur) "") false
         (inr (PDict info))) /\
    assoc "name" info = Some name /\
    assoc "owner" info = Some owner /\
    map fst sample_repo_info
    = [ "name"; "description"; "homepage"; "author"; "donate";
        "readme"; "issues" ] /\
    assoc "name" sample_repo_info = Some name /\
    assoc "author" sample_repo_info = Some owner /\
    assoc "donate" sample_repo_info
    = Some (PStr ("https://www.gittip.com/on/bitbucket/"
                    ++ fmt sample_str owner ++ "/")).
Proof.
  apply (repo_info_keys_and_owner sample_respond sample_str
           "https://bitbucket.org/u/r" []).
  reflexivity.
Defined.

Lemma repo_info_fetch_order_sample :
  exists ur branch pre meta listing readme,
    user_repo_of "https://bitbucket.org/u/r" = Some ur /\
    _user_repo_branch sample_respond sample_str "https://bitbucket.org/u/r" []
    = (inr (PStr ur, branch), ([] ++ pre)%list) /\
    ((exists g mb,
        re_match repo_re "https://bitbucket.org/u/r" = Some g /\
        ur = group 1 g /\
        pre = [mkCall (_make_api_url sample_str (PStr ur) "/main-branch") true
                 (inr (PDict mb))] /\
        assoc "name" mb = Some branch)
     \/ (re_match repo_re "https://bitbucket.org/u/r" = None /\
         exists g,
           re_match branch_re "https://bitbucket.org/u/r" = Some g /\
           ur = group 1 g /\ branch = PStr (group 2 g) /\ pre = [])) /\
    snd (repo_info sample_respond sample_str "https://bitbucket.org/u/r" [])
    = ([] ++ pre ++
       [ mkCall (_make_api_url sample_str (PStr ur) "") false (inr meta);
         mkCall
           (_make_api_url sample_str (PStr ur)
              ("/src/" ++ fmt sample_str branch ++ "/"))
           false (inr listing) ])%list /\
    _readme_url sample_respond sample_str (PStr ur) branch false
      ([] ++ pre ++
       [mkCall (_make_api_url sample_str (PStr ur) "") false (inr meta)])%list
    = (inr readme,
       snd (repo_info sample_respond sample_str "https://bitbucket.org/u/r" []))
    /\ assoc "readme" sample_repo_info = Some readme.
Proof.
  apply (repo_info_fetch_order sample_respond sample_str
           "https://bitbucket.org/u/r" []).
  reflexivity.
Defined.

Lemma missing_field_fails_before_listing_sample :
  repo_info edge_respond sample_str "https://bitbucket.org/u/bare" []
  = (inl (KeyError "website"),
     [ mkCall "https://api.bitbucket.org/1.0/repositories/u/bare/main-branch"
         true (inr (PDict [("name", PStr "default")]));
       mkCall "https://api.bitbucket.org/1.0/repositories/u/bare" false
         (inr (PDict [("name", PStr "bare");
                      ("description", PStr "no website")])) ]).
Proof.
  apply (missing_field_fails_before_listing edge_respond sample_str
           "https://bitbucket.org/u/bare" []
           [mkCall "https://api.bitbucket.org/1.0/repositories/u/bare/main-branch"
              true (inr (PDict [("name", PStr "default")]))]
           "u/bare" (PStr "default")
           [("name", PStr "bare"); ("description", PStr "no website")]
           "website");
    reflexivity.
Defined.

Lemma missing_has_issues_fails_after_listing_sample :
  repo_info edge_respond sample_str "https://bitbucket.org/u/half" []
  = (inl (KeyError "has_issues"),
     [ mkCall "https://api.bitbucket.org/1.0/repositories/u/half/main-branch"
         true (inr (PDict [("name", PStr "default")]));
       mkCall "https://api.bitbucket.org/1.0/repositories/u/half" false
         (inr (PDict [("name", PStr "half"); ("description", PStr "");
                      ("website", PStr ""); ("owner", PStr "u")]));
       mkCall "https://api.bitbucket.org/1.0/repositories/u/half/src/default/"
         false
         (inr (PDict [("files", PList [PDict [("path", PStr "setup.py")]])])) ]).
Proof.
  apply (missing_has_issues_fails_after_listing edge_respond sample_str
           "https://bitbucket.org/u/half" []
           [mkCall "https://api.bitbucket.org/1.0/repositories/u/half/main-branch"
              true (inr (PDict [("name", PStr "default")]))]
           _ "u/half" (PStr "default")
           [("name", PStr "half"); ("description", PStr "");
            ("website", PStr ""); ("owner", PStr "u")]
           PNone);
    reflexivity.
Defined.

Lemma tag_version_or_timestamp_sample :
  fst (download_info edge_respond [] keep_all keep_order sample_str
         "https://bitbucket.org/u/odd/#tags" [])
  = inr (PDict
      [ ("version", PStr "2014.03.12.10.00.00");
        ("url", PStr "https://bitbucket.org/u/odd/get/v.zip");
        ("date", PStr "2014-03-12 10:00:00") ]).
Proof.
  apply (tag_version_or_timestamp edge_respond [] keep_all keep_order
           sample_str "https://bitbucket.org/u/odd/#tags" ["u/odd"] []
           [("v", PDict [])] "v" []
           [("timestamp", PStr "2014-03-12 10:00:00+00:00")]
           "2014-03-12 10:00:00+00:00");
    reflexivity.
Defined.

Lemma bad_timestamp_raises_sample :
  download_info edge_respond [] keep_all keep_order sample_str
    "https://bitbucket.org/u/bare" []
  = (inl (KeyError "timestamp"),
     [ mkCall "https://api.bitbucket.org/1.0/repositories/u/bare/main-branch"
         true (inr (PDict [("name", PStr "default")]));
       mkCall
         "https://api.bitbucket.org/1.0/repositories/u/bare/changesets/default"
         false (inr (PDict [("node", PStr "abc123")])) ]).
Proof.
  apply (proj1 (bad_timestamp_raises edge_respond [] keep_all keep_order
                  sample_str "https://bitbucket.org/u/bare" []
                  [mkCall
                     "https://api.bitbucket.org/1.0/repositories/u/bare/main-branch"
                     true (inr (PDict [("name", PStr "default")]))]
                  "u/bare" (PStr "default") [("node", PStr "abc123")]
                  eq_refl eq_refl eq_refl)).
  reflexivity.
Defined.

Lemma branch_url_download_sample :
  download_info sample_respond sample_settings semver_filter semver_sort
    sample_str "https://bitbucket.org/u/r/src/master" []
  = (inr (PDict sample_download_info),
     [mkCall "https://api.bitbucket.org/1.0/repositories/u/r/changesets/master"
        false (inr (PDict [("timestamp", PStr "2014-03-12T10:00:00+00:00")]))]).
Proof.
  apply (branch_url_download sample_respond sample_settings semver_filter
           semver_sort sample_str "https" "."%char "u" "r" "master" "" []
           [("timestamp", PStr "2014-03-12T10:00:00+00:00")]
           "2014-03-12T10:00:00+00:00"); shape_side.
Defined.

Lemma root_url_download_sample :
  download_info sample_respond sample_settings semver_filter semver_sort
    sample_str "https://bitbucket.org/u/r/" []
  = (inr (PDict sample_download_info),
     [ mkCall "https://api.bitbucket.org/1.0/repositories/u/r/main-branch"
         true (inr (PDict [("name", PStr "master")]));
       mkCall "https://api.bitbucket.org/1.0/repositories/u/r/changesets/master"
         false
         (inr (PDict [("timestamp", PStr "2014-03-12T10:00:00+00:00")])) ]).
Proof.
  apply (root_url_download sample_respond sample_settings semver_filter
           semver_sort sample_str "https" "."%char "u" "r" "/" []
           [("name", PStr "master")] (PStr "master")
           [("timestamp", PStr "2014-03-12T10:00:00+00:00")]
           "2014-03-12T10:00:00+00:00"); shape_side.
Defined.

Lemma malformed_entry_raises_sample :
  _readme_url edge_respond sample_str (PStr "u/broken") (PStr "default")
    false []
  = (inl (KeyError "path"),
     [mkCall "https://api.bitbucket.org/1.0/repositories/u/broken/src/default/"
        false
        (inr (PDict [("files",
                      PList [PDict [("path", PStr "setup.py")];
                             PDict [("size", PInt 12)];
                             PDict [("path", PStr "README")]])]))]).
Proof.
  apply (malformed_entry_raises edge_respond sample_str (PStr "u/broken")
           (PStr "default") false []
           [("files",
             PList [PDict [("path", PStr "setup.py")];
                    PDict [("size", PInt 12)];
                    PDict [("path", PStr "README")]])]
           [PDict [("path", PStr "setup.py")]]
           (PDict [("size", PInt 12)])
           [PDict [("path", PStr "README")]]);
    reflexivity.
Defined.

Lemma timestamp_version_is_clean_sample :
  exists version date rest,
    fst (download_info sample_respond sample_settings semver_filter
           semver_sort sample_str "https://bitbucket.org/u/r" [])
    = inr (PDict (("version", PStr version) :: rest)) /\
    assoc "date" rest = Some (PStr date) /\
    String.length version = String.length date /\
    String.length version <= 19 /\
    all_chars (fun a => negb (is_date_sep a)) version = true.
Proof.
  apply (timestamp_version_is_clean sample_respond sample_settings
           semver_filter semver_sort sample_str
           "https://bitbucket.org/u/r" []
           [mkCall "https://api.bitbucket.org/1.0/repositories/u/r/main-branch"
              true (inr (PDict [("name", PStr "master")]))]
           "u/r" (PStr "master")
           [("timestamp", PStr "2014-03-12T10:00:00+00:00")]
           "2014-03-12T10:00:00+00:00");
    reflexivity.
Defined.

Lemma repo_info_rejects_slash_tags_sample :
  repo_info sample_respond sample_str "https://bitbucket.org/u/r/#tags" []
  = (inr PNone, []).
Proof.
  apply (repo_info_rejects_slash_tags sample_respond sample_str
           "https" "."%char "u" "r" []); shape_side.
Defined.

Lemma repo_info_accepts_hash_tags_sample :
  repo_info hash_respond sample_str "https://bitbucket.org/u/r#tags" []
  = (inr (PDict
       [ ("name", PStr "r");
         ("description", PStr "No description provided");
         ("homepage", PStr "https://bitbucket.org/u/r#tags");
         ("author", PStr "u");
         ("donate", PStr "https://www.gittip.com/on/bitbucket/u/");
         ("readme", PStr "https://bitbucket.org/u/r#tags/raw/master/Readme.rst");
         ("issues", PStr "https://bitbucket.org/u/r#tags/issues") ]),
     [ mkCall "https://api.bitbucket.org/1.0/repositories/u/r#tags/main-branch"
         true (inr (PDict [("name", PStr "master")]));
       mkCall "https://api.bitbucket.org/1.0/repositories/u/r#tags" false
         (inr (PDict [("name", PStr "r"); ("description", PStr "");
                      ("website", PStr ""); ("owner", PStr "u");
                      ("has_issues", PBool true)]));
       mkCall "https://api.bitbucket.org/1.0/repositories/u/r#tags/src/master/"
         false
         (inr (PDict [("files", PList [PDict [("path", PStr "Readme.rst")]])])) ]).
Proof.
  destruct (repo_info_accepts_hash_tags hash_respond sample_str "u" "r" [])
    as (_ & _ & _ & _ & H); [discriminate | reflexivity | reflexivity |].
  apply (H [("name", PStr "master")] (PStr "master")
           [("name", PStr "r"); ("description", PStr "");
            ("website", PStr ""); ("owner", PStr "u");
            ("has_issues", PBool true)]
           (PStr "r") (PStr "") (PStr "") (PStr "u") (PBool true)
           (PStr "https://bitbucket.org/u/r#tags/raw/master/Readme.rst"));
    reflexivity.
Defined.
